(** * Settings reconciliation of the Low Vision Accessibility panel

    A shallow embedding of the reconciliation logic of
    [AccessibilityPanel.ts]: the webview script (the pending-update
    ledger [pendingUpdates], [updateUIWithSettings], [applySetting],
    [applyRecommended], [resetAllSettings], [updateRangeValue]) and the
    extension side (the debounced configuration listener,
    [_applySettings], [_resetSettings], [_applyRecommendedSettings],
    [_sendCurrentSettings]); with them the [onchange] handlers of the
    page's controls, [dispose], and the font prompt of [extension.ts].

    JavaScript values are a tagged union whose numbers are IEEE 754
    binary64 floats (Rocq's primitive floats), objects used as
    dictionaries are finite maps, [for ... of Object.entries(o)] loops
    are left folds over the list of entries, and every assignment to a
    control of the page is recorded in a trace of host operations. *)

From Stdlib Require Import ZArith QArith Qround Floats String Ascii List DecimalString Lia.
From stdpp Require Import gmap strings list fin_maps sorting.

#[local] Open Scope Z_scope.

(** ** The JavaScript values and built-ins the source relies on *)

Module JS.

(** The primitive values that travel between the store, the extension
    and the webview. *)
Inductive Value : Type :=
  | Undefined
  | Null
  | Bool (b : bool)
  | Num (x : float)
  | Str (s : string).

(** [a === b] (IsStrictlyEqual): same type and same value; on numbers
    this is the IEEE comparison, so [NaN === NaN] is false and
    [0 === -0] is true. *)
Definition strict_equals (a b : Value) : bool :=
  match a, b with
  | Undefined, Undefined => true
  | Null, Null => true
  | Bool x, Bool y => Bool.eqb x y
  | Num x, Num y => PrimFloat.eqb x y
  | Str x, Str y => String.eqb x y
  | _, _ => false
  end.

(** The numbers on which [===] is plain equality: every float but NaN
    (which is not [===] to itself) and negative zero (which is [===] to
    zero).  A settings file, being JSON text, has no way to write NaN,
    and a JSON message prints [-0] as [0]. *)
Definition plain_number (x : float) : bool :=
  match Prim2SF x with
  | S754_nan | S754_zero true => false
  | _ => true
  end.

Definition plain (v : Value) : Prop :=
  match v with
  | Num x => plain_number x = true
  | _ => True
  end.

(** [!!v] (ToBoolean). *)
Definition ToBoolean (v : Value) : bool :=
  match v with
  | Undefined | Null => false
  | Bool b => b
  | Num x => negb (PrimFloat.eqb x 0 || PrimFloat.is_nan x)
  | Str s => negb (String.eqb s "")
  end.

(** [a || b] and [a ?? b]. *)
Definition or_else (a b : Value) : Value := if ToBoolean a then a else b.

Definition nullish (v : Value) : bool :=
  match v with Undefined | Null => true | _ => false end.

Definition coalesce (a b : Value) : Value := if nullish a then b else a.

(** [s.includes(t)]: [t] occurs somewhere in [s]. *)
Fixpoint includes (s t : string) : bool :=
  String.prefix t s ||
  match s with
  | EmptyString => false
  | String _ s' => includes s' t
  end.

(** No character of the string is a [p]: a label that is [unitless]
    has no "px" in it. *)
Definition unitless (s : string) : Prop :=
  Forall (fun c => c <> "p"%char) (list_ascii_of_string s).

(** *** Decimal digits *)

Definition digits_of_pos (p : positive) : string :=
  NilEmpty.string_of_uint (Pos.to_uint p).

Definition digits_of_Z (n : Z) : string :=
  match n with
  | Z.pos p => digits_of_pos p
  | _ => "0"
  end.

Fixpoint zeros (n : nat) : string :=
  match n with
  | O => ""
  | S n' => String "0" (zeros n')
  end.

Definition pow10 (k : Z) : Q :=
  if 0 <=? k then inject_Z (10 ^ k) else Qmake 1 (Z.to_pos (10 ^ (- k))).

Definition pow2 (k : Z) : Q :=
  if 0 <=? k then inject_Z (2 ^ k) else Qmake 1 (Z.to_pos (2 ^ (- k))).

(** The real number a finite, non-zero float [(-1)^s * m * 2^e] stands for
    (its magnitude). *)
Definition magnitude (m : positive) (e : Z) : Q := (inject_Z (Z.pos m) * pow2 e)%Q.

(** *** Number::toString (radix 10)

    The shortest decimal [s * 10^(n-k)], [k] digits, that rounds back to
    the float.  A decimal rounds back when it lies between the midpoints
    to the neighbouring floats, the midpoints themselves counting when
    the mantissa is even (round-half-even). *)

Definition interval_low (m : positive) (e : Z) : Q :=
  if (Z.pos m =? 2 ^ 52) && (-1074 <? e)
  then (inject_Z (4 * Z.pos m - 1) * pow2 (e - 2))%Q
  else (inject_Z (2 * Z.pos m - 1) * pow2 (e - 1))%Q.

Definition interval_high (m : positive) (e : Z) : Q :=
  (inject_Z (2 * Z.pos m + 1) * pow2 (e - 1))%Q.

Definition rounds_back (m : positive) (e : Z) (c : Q) : bool :=
  if Z.even (Z.pos m)
  then Qle_bool (interval_low m e) c && Qle_bool c (interval_high m e)
  else negb (Qle_bool c (interval_low m e)) && negb (Qle_bool (interval_high m e) c).

(** [n] with [10^(n-1) <= v < 10^n], for [v > 0]. *)
Definition decimal_exponent (v : Q) : Z :=
  if Qle_bool 1 v
  then Z.of_nat (String.length (digits_of_Z (Qfloor v)))
  else 1 - Z.of_nat (String.length (digits_of_Z (Qfloor (/ v)))).

(** The [k]-digit candidates around [v]: the decimals just below and
    just above, the nearer one first (the even one on a tie). *)
Definition candidates (v : Q) (n k : Z) : list Z :=
  let q := (v * pow10 (k - n))%Q in
  let lo := Qfloor q in
  let hi := lo + 1 in
  let dlo := (q - inject_Z lo)%Q in
  let dhi := (inject_Z hi - q)%Q in
  match Qcompare dlo dhi with
  | Lt => [lo; hi]
  | Gt => [hi; lo]
  | Eq => if Z.even lo then [lo; hi] else [hi; lo]
  end.

Definition shortest_at (m : positive) (e : Z) (n k : Z) : option (Z * Z) :=
  let v := magnitude m e in
  match filter (fun s => (0 <? s) && rounds_back m e (inject_Z s * pow10 (n - k))%Q)
               (candidates v n k) with
  | s :: _ => Some (if s =? 10 ^ k then (10 ^ (k - 1), n + 1) else (s, n))
  | [] => None
  end.

Fixpoint shortest_from (m : positive) (e : Z) (n k : Z) (fuel : nat) : Z * Z * Z :=
  match shortest_at m e n k with
  | Some (s, n') => (s, n', k)
  | None =>
      match fuel with
      | O => (Qfloor (magnitude m e * pow10 (k - n)), n, k)
      | S fuel' => shortest_from m e n (k + 1) fuel'
      end
  end.

(** The triple [(s, n, k)] of Number::toString, step 5. *)
Definition shortest_decimal (m : positive) (e : Z) : Z * Z * Z :=
  shortest_from m e (decimal_exponent (magnitude m e)) 1 16.

Definition substring_from (i : nat) (s : string) : string :=
  String.substring i (String.length s - i) s.

Definition format_decimal (s n k : Z) : string :=
  let d := digits_of_Z s in
  if (k <=? n) && (n <=? 21) then
    d +:+ zeros (Z.to_nat (n - k))
  else if (0 <? n) && (n <=? 21) then
    String.substring 0 (Z.to_nat n) d +:+ "." +:+ substring_from (Z.to_nat n) d
  else if (-6 <? n) && (n <=? 0) then
    "0." +:+ zeros (Z.to_nat (- n)) +:+ d
  else
    let ex := n - 1 in
    let sign := if ex <? 0 then "-" else "+" in
    let mant := if k =? 1 then d
                else String.substring 0 1 d +:+ "." +:+ substring_from 1 d in
    mant +:+ "e" +:+ sign +:+ digits_of_Z (Z.abs ex).

Definition Number_toString (x : float) : string :=
  match Prim2SF x with
  | S754_nan => "NaN"
  | S754_zero _ => "0"
  | S754_infinity s => if s then "-Infinity" else "Infinity"
  | S754_finite s m e =>
      let '(d, n, k) := shortest_decimal m e in
      (if s then "-" else "") +:+ format_decimal d n k
  end.

(** ToString on the primitive values. *)
Definition ToString (v : Value) : string :=
  match v with
  | Undefined => "undefined"
  | Null => "null"
  | Bool true => "true"
  | Bool false => "false"
  | Num x => Number_toString x
  | Str s => s
  end.

(** [a + b] where [b] is a string: concatenation of the two ToStrings. *)
Definition concat (a : Value) (b : string) : Value := Str (ToString a +:+ b).

(** *** Number.prototype.toFixed

    [x.toFixed(f)]: the integer [n] with [n / 10^f] nearest to [|x|]
    (the larger one on a tie), printed with [f] digits after the point. *)
Definition toFixed (x : float) (f : nat) : string :=
  match Prim2SF x with
  | S754_finite s m e =>
      let v := magnitude m e in
      if Qle_bool (pow10 21) v then Number_toString x
      else
        let n := Qfloor (v * pow10 (Z.of_nat f) + (1 # 2))%Q in
        let d := digits_of_Z n in
        let d := zeros (S f - String.length d) +:+ d in
        let k := String.length d in
        let body := match f with
                    | O => d
                    | _ => String.substring 0 (k - f) d +:+ "." +:+ substring_from (k - f) d
                    end in
        (if s then "-" else "") +:+ body
  | S754_zero _ =>
      match f with
      | O => "0"
      | _ => "0." +:+ zeros f
      end
  | _ => Number_toString x
  end.

(** *** parseFloat

    The longest prefix of the trimmed string that is a StrDecimalLiteral,
    rounded to the nearest float; NaN when there is none.  Strings are
    strings of bytes, and the white space trimmed is the ASCII one. *)

Definition is_digit (c : ascii) : bool :=
  let n := nat_of_ascii c in (48 <=? n)%nat && (n <=? 57)%nat.

Definition is_space (c : ascii) : bool :=
  let n := nat_of_ascii c in ((9 <=? n)%nat && (n <=? 13)%nat) || (n =? 32)%nat.

Fixpoint trim_start (s : string) : string :=
  match s with
  | String c s' => if is_space c then trim_start s' else s
  | EmptyString => s
  end.

(** The leading digits of [s], as a number and as a count, and the rest. *)
Fixpoint read_digits (s : string) (acc : Z) (count : nat) : Z * nat * string :=
  match s with
  | String c s' =>
      if is_digit c
      then read_digits s' (10 * acc + Z.of_nat (nat_of_ascii c - 48)) (S count)
      else (acc, count, s)
  | EmptyString => (acc, count, s)
  end.

(** An ExponentPart at the head of [s], when there is a complete one. *)
Definition read_exponent (s : string) : Z :=
  match s with
  | String c s' =>
      if Ascii.eqb c "e" || Ascii.eqb c "E" then
        match s' with
        | String "+" s'' =>
            let '(ex, cnt, _) := read_digits s'' 0 0 in
            match cnt with O => 0 | _ => ex end
        | String "-" s'' =>
            let '(ex, cnt, _) := read_digits s'' 0 0 in
            match cnt with O => 0 | _ => - ex end
        | _ =>
            let '(ex, cnt, _) := read_digits s' 0 0 in
            match cnt with O => 0 | _ => ex end
        end
      else 0
  | EmptyString => 0
  end.

(** [mant * 10^ex], rounded to nearest, ties to even. *)
Definition round_decimal (neg : bool) (mant : Z) (ex : Z) : float :=
  match mant with
  | Z.pos p =>
      if 0 <=? ex
      then SF2Prim (binary_normalize prec emax ((if neg then -1 else 1) * mant * 10 ^ ex) 0 neg)
      else SF2Prim (SFdiv prec emax (S754_finite neg p 0)
                                    (S754_finite false (Z.to_pos (10 ^ (- ex))) 0))
  | _ => if neg then (-0)%float else 0%float
  end.

Definition parse_unsigned (neg : bool) (s : string) : float :=
  if String.prefix "Infinity" s then (if neg then neg_infinity else infinity)
  else
    let '(ip, icnt, rest) := read_digits s 0 0 in
    match rest with
    | String "." rest' =>
        let '(m, fcnt, rest'') := read_digits rest' ip 0 in
        match icnt, fcnt with
        | O, O => nan
        | _, _ => round_decimal neg m (read_exponent rest'' - Z.of_nat fcnt)
        end
    | _ =>
        match icnt with
        | O => nan
        | _ => round_decimal neg ip (read_exponent rest)
        end
    end.

Definition parseFloat (input : string) : float :=
  match trim_start input with
  | String "-" s => parse_unsigned true s
  | String "+" s => parse_unsigned false s
  | s => parse_unsigned false s
  end.

End JS.

(** ** The page of the webview: the controls the script looks up *)

Module Dom.

(** What the script reads of an element: [el_type] is [element.type]
    (absent on a [span]), [el_value] the current [element.value].  The
    [min], [max] and [step] of a range input, which the script does not
    read, are with the host of the page ([Page.attributes]): they bound
    what [el_value] can be on the page. *)
Record Element : Type := {
  el_id : string;
  el_type : option string;
  el_tagName : string;
  el_value : string
}.

Definition Document : Type := list Element.

Definition getElementById (document : Document) (i : string) : option Element :=
  find (fun el => String.eqb (el_id el) i) document.

(** The assignments the script makes to the page. *)
Inductive HostOp : Type :=
  | SetValue (target : string) (v : JS.Value)           (* element.value = v *)
  | SetTextContent (target : string) (text : string).   (* span.textContent = text *)

(** The string [element.value] holds once the script has assigned [v] to
    it: the host's conversion and, for an [input], its value
    sanitization. *)
Definition ValueSetter : Type := Element -> JS.Value -> string.

(** A host that stores what it is given, converted to a string
    ([null] becoming the empty string), unsanitized. *)
Definition plain_setter : ValueSetter :=
  fun _ v => match v with JS.Null => "" | _ => JS.ToString v end.

Definition select (i first_option : string) : Element :=
  {| el_id := i; el_type := Some "select-one"; el_tagName := "SELECT"; el_value := first_option |}.

Definition range (i initial : string) : Element :=
  {| el_id := i; el_type := Some "range"; el_tagName := "INPUT"; el_value := initial |}.

Definition number (i initial : string) : Element :=
  {| el_id := i; el_type := Some "number"; el_tagName := "INPUT"; el_value := initial |}.

Definition span (i : string) : Element :=
  {| el_id := i; el_type := None; el_tagName := "SPAN"; el_value := "" |}.

(** The elements of the panel's markup that carry an id, in document order. *)
Definition panel : Document :=
  [ select "workbench.colorTheme" "Default Dark Modern";
    range "window.zoomLevel" "0";
    span "window.zoomLevel-value";
    select "editor.fontFamily" "'Atkinson Hyperlegible Mono', Consolas, 'Courier New', monospace";
    range "editor.fontSize" "14";
    span "editor.fontSize-value";
    number "editor.lineHeight" "0";
    range "editor.letterSpacing" "0";
    span "editor.letterSpacing-value";
    select "editor.mouseWheelZoom" "true";
    select "editor.cursorStyle" "line";
    select "editor.cursorBlinking" "blink";
    select "editor.matchBrackets" "always";
    select "editor.bracketPairColorization.enabled" "true";
    select "editor.wordWrap" "off";
    select "editor.accessibilitySupport" "auto";
    select "editor.minimap.enabled" "true";
    range "terminal.integrated.fontSize" "14";
    span "terminal.integrated.fontSize-value";
    select "terminal.integrated.cursorStyle" "block";
    select "editor.guides.indentation" "true";
    select "editor.guides.bracketPairs" "true";
    select "editor.smoothScrolling" "true";
    range "editor.scrollbar.verticalScrollbarSize" "14";
    span "editor.scrollbar.verticalScrollbarSize-value";
    range "editor.scrollbar.horizontalScrollbarSize" "12";
    span "editor.scrollbar.horizontalScrollbarSize-value";
    select "editor.wrappingIndent" "none";
    range "editor.suggestFontSize" "0";
    span "editor.suggestFontSize-value";
    range "editor.suggestLineHeight" "0";
    span "editor.suggestLineHeight-value";
    select "editor.inlayHints.enabled" "on";
    select "editor.parameterHints.enabled" "true";
    select "editor.hover.enabled" "true";
    select "workbench.preferredDarkColorTheme" "Default Dark Modern";
    select "workbench.preferredLightColorTheme" "Default Light Modern";
    select "workbench.preferredHighContrastColorTheme" "Default High Contrast";
    range "terminal.integrated.lineHeight" "1";
    span "terminal.integrated.lineHeight-value";
    select "terminal.integrated.cursorBlinking" "true" ].

End Dom.

(** ** The webview script *)

Module Webview.
Import JS Dom.

(** The messages the script posts to the extension. *)
Inductive Command : Type :=
  | ApplySettings (settings : list (string * Value))
  | ResetSettings (settingKeys : list string)
  | ApplyRecommended
  | GetCurrentSettings.

Section Script.

Variable host : ValueSetter.
Variable document : Document.

(** [updateRangeValue(element)]: the label next to a slider. *)
Definition updateRangeValue (element : Element) : list HostOp :=
  match getElementById document (el_id element +:+ "-value") with
  | Some valueSpan =>
      let value := parseFloat (el_value element) in
      let displayValue :=
        if includes (el_id element) "FontSize" || includes (el_id element) "ScrollbarSize" then
          if PrimFloat.eqb value 0 then Str "Auto" else concat (Num value) "px"
        else if includes (el_id element) "LineHeight" then
          if PrimFloat.eqb value 0 then Str "Auto" else Str (toFixed value 1)
        else if includes (el_id element) "LetterSpacing" then
          concat (Num value) "px"
        else if String.eqb (el_id element) "window.zoomLevel" then
          Str (toFixed value 1)
        else Num value in
      [SetTextContent (el_id valueSpan) (ToString displayValue)]
  | None => []
  end.

Definition assigned (element : Element) (v : Value) : Element :=
  {| el_id := el_id element; el_type := el_type element;
     el_tagName := el_tagName element; el_value := host element v |}.

Definition is_boolean (v : Value) : bool :=
  strict_equals v (Bool true) || strict_equals v (Bool false).

(** The body of the loop of [updateUIWithSettings] below the pending
    check: look the control up and assign it the value. *)
Definition updateControl (key : string) (value : Value) : list HostOp :=
  match getElementById document key with
  | Some element =>
      if bool_decide (el_type element = Some "range") then
        let v := if negb (nullish value) then value else Num 0 in
        SetValue (el_id element) v :: updateRangeValue (assigned element v)
      else if bool_decide (el_type element = Some "number") then
        [SetValue (el_id element) (if negb (nullish value) then value else Str "")]
      else if String.eqb (el_tagName element) "SELECT" && is_boolean value then
        [SetValue (el_id element) (Str (ToString value))]
      else if String.eqb (el_tagName element) "SELECT" then
        [SetValue (el_id element) (coalesce value (Str ""))]
      else
        [SetValue (el_id element) (or_else value (Str ""))]
  | None => []
  end.

(** One turn of the loop over [Object.entries(settings)]. *)
Definition reconcile (st : gmap string Value * list HostOp) (entry : string * Value)
  : gmap string Value * list HostOp :=
  let '(pendingUpdates, ops) := st in
  let '(key, value) := entry in
  match pendingUpdates !! key with
  | Some pending =>
      if negb (strict_equals pending value)
      then (pendingUpdates, ops)                                          (* continue *)
      else (delete key pendingUpdates, ops ++ updateControl key value)
  | None => (pendingUpdates, ops ++ updateControl key value)
  end.

(** [updateUIWithSettings(settings)], on the ledger: the ledger it leaves
    and the assignments it makes. *)
Definition updateUIWithSettings (pendingUpdates : gmap string Value)
    (settings : list (string * Value)) : gmap string Value * list HostOp :=
  foldl reconcile (pendingUpdates, []) settings.

End Script.

(** The state of the script: the ledger, and what it has posted and
    assigned so far. *)
Record State : Type := {
  pendingUpdates : gmap string Value;
  posted : list Command;
  assignments : list HostOp
}.

Definition initial : State :=
  {| pendingUpdates := ∅; posted := []; assignments := [] |}.

(** [applySetting(key, value)]. *)
Definition applySetting (key : string) (value : Value) (st : State) : State :=
  {| pendingUpdates := <[key := value]> (pendingUpdates st);
     posted := posted st ++ [ApplySettings [(key, value)]];
     assignments := assignments st |}.

(** [applyRecommended()]. *)
Definition applyRecommended (st : State) : State :=
  {| pendingUpdates := pendingUpdates st;
     posted := posted st ++ [ApplyRecommended];
     assignments := assignments st |}.

Definition allSettings : list string :=
  [ "workbench.colorTheme";
    "window.zoomLevel";
    "editor.fontFamily";
    "editor.fontSize";
    "editor.lineHeight";
    "editor.letterSpacing";
    "editor.mouseWheelZoom";
    "editor.cursorStyle";
    "editor.cursorBlinking";
    "editor.matchBrackets";
    "editor.bracketPairColorization.enabled";
    "editor.wordWrap";
    "editor.accessibilitySupport";
    "editor.minimap.enabled";
    "terminal.integrated.fontSize";
    "terminal.integrated.cursorStyle";
    "editor.guides.indentation";
    "editor.guides.bracketPairs";
    "editor.smoothScrolling";
    "editor.scrollbar.verticalScrollbarSize";
    "editor.scrollbar.horizontalScrollbarSize";
    "editor.wrappingIndent";
    "editor.suggestFontSize";
    "editor.suggestLineHeight";
    "editor.inlayHints.enabled";
    "editor.parameterHints.enabled";
    "editor.hover.enabled";
    "workbench.preferredDarkColorTheme";
    "workbench.preferredLightColorTheme";
    "workbench.preferredHighContrastColorTheme";
    "terminal.integrated.lineHeight";
    "terminal.integrated.cursorBlinking" ].

(** [resetAllSettings()]. *)
Definition resetAllSettings (st : State) : State :=
  {| pendingUpdates := pendingUpdates st;
     posted := posted st ++ [ResetSettings allSettings];
     assignments := assignments st |}.

(** The [load] listener. *)
Definition onLoad (st : State) : State :=
  {| pendingUpdates := pendingUpdates st;
     posted := posted st ++ [GetCurrentSettings];
     assignments := assignments st |}.

(** The [message] listener, on an [updateSettings] message. *)
Definition onUpdateSettings (host : ValueSetter) (document : Document)
    (settings : list (string * Value)) (st : State) : State :=
  let '(pending, ops) := updateUIWithSettings host document (pendingUpdates st) settings in
  {| pendingUpdates := pending;
     posted := posted st;
     assignments := assignments st ++ ops |}.

(** What can happen to the script. *)
Inductive Action : Type :=
  | Commit (key : string) (value : Value)            (* a control's onchange *)
  | ClickRecommended
  | ClickReset
  | PageLoad
  | UpdateSettings (settings : list (string * Value)).

Definition act (host : ValueSetter) (document : Document) (st : State) (a : Action) : State :=
  match a with
  | Commit key value => applySetting key value st
  | ClickRecommended => applyRecommended st
  | ClickReset => resetAllSettings st
  | PageLoad => onLoad st
  | UpdateSettings settings => onUpdateSettings host document settings st
  end.

Definition run (host : ValueSetter) (document : Document) (actions : list Action) (st : State)
  : State :=
  foldl (act host document) st actions.

(** The assignments of a trace that concern the control [key]: its value
    and the label that goes with it. *)
Definition concerns (key : string) (op : HostOp) : bool :=
  match op with
  | SetValue target _ => String.eqb target key
  | SetTextContent target _ => String.eqb target (key +:+ "-value")
  end.

Definition pushes_to (key : string) (ops : list HostOp) : list HostOp :=
  List.filter (concerns key) ops.

End Webview.

(** ** The extension side of the panel *)

Module Extension.
Import JS.

(** Modelled from the spec: the Configuration Store (section 6), which
    the source reaches through [vscode.workspace.getConfiguration()].
    [get] answers the effective value of a key, a workspace value
    shadowing the user's (global) value, which shadows the default;
    [update] with target [Global] sets the user's value, and clears it
    when the value is [undefined]. *)
Record Configuration : Type := {
  defaultValue : gmap string Value;
  globalValue : gmap string Value;
  workspaceValue : gmap string Value
}.

Definition get (config : Configuration) (key : string) : Value :=
  match workspaceValue config !! key with
  | Some v => v
  | None =>
      match globalValue config !! key with
      | Some v => v
      | None => default Undefined (defaultValue config !! key)
      end
  end.

Definition setGlobal (config : Configuration) (g : gmap string Value) : Configuration :=
  {| defaultValue := defaultValue config;
     globalValue := g;
     workspaceValue := workspaceValue config |}.

(** What the panel tells the user. *)
Inductive Notice : Type :=
  | Information (text : string)
  | FailedToUpdate (key : string)
  | FailedToReset (key : string).

(** The panel: [config] is what [getConfiguration()] answers at the
    moment; [requested] the [config.update(key, value, Global)] calls
    issued so far, oldest first, which the store carries out on its own
    time; [timers] the timeouts that are armed, each with the time it is
    due; [sent] the [updateSettings] messages posted to the webview,
    each with the time of posting. *)
Record Panel : Type := {
  config : Configuration;
  requested : list (string * Value);
  timers : gmap nat Z;
  next_handle : nat;
  _configUpdateTimer : option nat;
  sent : list (Z * list (string * Value));
  notices : list Notice;
  now : Z
}.

Definition with_requested (r : list (string * Value)) (p : Panel) : Panel :=
  {| config := config p; requested := r; timers := timers p;
     next_handle := next_handle p; _configUpdateTimer := _configUpdateTimer p;
     sent := sent p; notices := notices p; now := now p |}.

Definition with_notices (n : list Notice) (p : Panel) : Panel :=
  {| config := config p; requested := requested p; timers := timers p;
     next_handle := next_handle p; _configUpdateTimer := _configUpdateTimer p;
     sent := sent p; notices := n; now := now p |}.

Definition with_sent (s : list (Z * list (string * Value))) (p : Panel) : Panel :=
  {| config := config p; requested := requested p; timers := timers p;
     next_handle := next_handle p; _configUpdateTimer := _configUpdateTimer p;
     sent := s; notices := notices p; now := now p |}.

Definition with_config (c : Configuration) (p : Panel) : Panel :=
  {| config := c; requested := requested p; timers := timers p;
     next_handle := next_handle p; _configUpdateTimer := _configUpdateTimer p;
     sent := sent p; notices := notices p; now := now p |}.

Definition with_now (t : Z) (p : Panel) : Panel :=
  {| config := config p; requested := requested p; timers := timers p;
     next_handle := next_handle p; _configUpdateTimer := _configUpdateTimer p;
     sent := sent p; notices := notices p; now := t |}.

Definition with_timers (ts : gmap nat Z) (p : Panel) : Panel :=
  {| config := config p; requested := requested p; timers := ts;
     next_handle := next_handle p; _configUpdateTimer := _configUpdateTimer p;
     sent := sent p; notices := notices p; now := now p |}.

(** [clearTimeout(handle)] and [setTimeout(callback, delay)]; the only
    callback the panel ever arms is [_sendCurrentSettings]. *)
Definition clearTimeout (handle : nat) (p : Panel) : Panel :=
  with_timers (delete handle (timers p)) p.

Definition setTimeout (delay : Z) (p : Panel) : Panel :=
  {| config := config p; requested := requested p;
     timers := <[next_handle p := now p + delay]> (timers p);
     next_handle := S (next_handle p);
     _configUpdateTimer := Some (next_handle p);
     sent := sent p; notices := notices p; now := now p |}.

Definition currentSettingsKeys : list string :=
  [ "workbench.colorTheme";
    "window.zoomLevel";
    "editor.fontFamily";
    "editor.fontSize";
    "editor.lineHeight";
    "editor.letterSpacing";
    "editor.mouseWheelZoom";
    "editor.cursorStyle";
    "editor.cursorBlinking";
    "editor.matchBrackets";
    "editor.bracketPairColorization.enabled";
    "editor.wordWrap";
    "editor.accessibilitySupport";
    "editor.minimap.enabled";
    "terminal.integrated.fontSize";
    "terminal.integrated.cursorStyle";
    "editor.guides.indentation";
    "editor.guides.bracketPairs";
    "editor.smoothScrolling";
    "editor.scrollbar.verticalScrollbarSize";
    "editor.scrollbar.horizontalScrollbarSize";
    "editor.wrappingIndent";
    "editor.suggestFontSize";
    "editor.suggestLineHeight";
    "editor.inlayHints.enabled";
    "editor.parameterHints.enabled";
    "editor.hover.enabled";
    "workbench.preferredDarkColorTheme";
    "workbench.preferredLightColorTheme";
    "workbench.preferredHighContrastColorTheme";
    "terminal.integrated.lineHeight";
    "terminal.integrated.cursorBlinking" ].

(** The object [currentSettings] of [_sendCurrentSettings]. *)
Definition currentSettings (c : Configuration) : list (string * Value) :=
  map (fun key => (key, get c key)) currentSettingsKeys.

(** [_sendCurrentSettings()]. *)
Definition _sendCurrentSettings (p : Panel) : Panel :=
  with_sent (sent p ++ [(now p, currentSettings (config p))]) p.

Definition recommendedSettings : list (string * Value) :=
  [ ("editor.fontFamily", Str "'Atkinson Hyperlegible Mono', Consolas, 'Courier New', monospace");
    ("editor.fontSize", Num 16);
    ("editor.mouseWheelZoom", Bool true);
    ("editor.cursorStyle", Str "block");
    ("editor.cursorBlinking", Str "solid");
    ("editor.matchBrackets", Str "always");
    ("editor.bracketPairColorization.enabled", Bool true);
    ("editor.wordWrap", Str "on");
    ("editor.accessibilitySupport", Str "on");
    ("editor.minimap.enabled", Bool false);
    ("editor.guides.indentation", Bool true);
    ("editor.guides.bracketPairs", Str "active");
    ("editor.smoothScrolling", Bool true);
    ("editor.wrappingIndent", Str "same");
    ("editor.inlayHints.enabled", Str "off");
    ("editor.parameterHints.enabled", Bool true);
    ("editor.hover.enabled", Bool true);
    ("terminal.integrated.cursorStyle", Str "block");
    ("terminal.integrated.cursorBlinking", Bool true);
    ("accessibility.signals.enabled", Bool true);
    ("audioCues.lineHasError", Str "on");
    ("audioCues.lineHasBreakpoint", Str "on");
    ("audioCues.taskCompleted", Str "on");
    ("audioCues.taskFailed", Str "on") ].

(** [e.affectsConfiguration(section)], the event being the keys that
    changed: one of them is [section] or lies below it. *)
Definition affectsConfiguration (e : list string) (section : string) : bool :=
  existsb (fun key => String.eqb key section || String.prefix (section +:+ ".") key) e.

Definition relevant (e : list string) : bool :=
  affectsConfiguration e "editor" ||
  affectsConfiguration e "workbench" ||
  affectsConfiguration e "window" ||
  affectsConfiguration e "terminal" ||
  affectsConfiguration e "accessibility" ||
  affectsConfiguration e "audioCues".

(** The listener of [onDidChangeConfiguration]. *)
Definition onDidChangeConfiguration (e : list string) (p : Panel) : Panel :=
  if relevant e then
    let p := match _configUpdateTimer p with
             | Some handle => clearTimeout handle p
             | None => p
             end in
    setTimeout 300 p
  else p.

(** [dispose()], as far as the timer goes. *)
Definition dispose (p : Panel) : Panel :=
  match _configUpdateTimer p with
  | Some handle => clearTimeout handle p
  | None => p
  end.

Section Store.

(** Whether the store accepts a write to the key (it rejects a key that
    no extension has registered). *)
Variable writable : string -> bool.

(** Modelled from the spec: [update(key, value | Absent)] of the
    Configuration Store, with target [Global]. *)
Definition update (config : Configuration) (request : string * Value) : Configuration :=
  let '(key, value) := request in
  if writable key then
    match value with
    | Undefined => setGlobal config (delete key (globalValue config))
    | _ => setGlobal config (<[key := value]> (globalValue config))
    end
  else config.

(** The store carrying out the requests it was sent, in order. *)
Definition carry_out (requests : list (string * Value)) (config : Configuration)
  : Configuration :=
  foldl update config requests.

(** [_applySettings(settings)]: each update is awaited, a rejected one
    is reported. *)
Definition _applySettings (settings : list (string * Value)) (p : Panel) : Panel :=
  let p := foldl (fun p '(key, value) =>
                    let p := with_requested (requested p ++ [(key, value)]) p in
                    if writable key then p
                    else with_notices (notices p ++ [FailedToUpdate key]) p)
                 p settings in
  with_notices (notices p ++ [Information "Settings applied successfully!"]) p.

End Store.

(** [_resetSettings(settingKeys)]: the updates are issued and not
    awaited. *)
Definition _resetSettings (settingKeys : list string) (p : Panel) : Panel :=
  let p := foldl (fun p key => with_requested (requested p ++ [(key, Undefined)]) p)
                 p settingKeys in
  let p := with_notices (notices p ++ [Information "Settings reset to default!"]) p in
  _sendCurrentSettings p.

(** [_applyRecommendedSettings()]. *)
Definition _applyRecommendedSettings (p : Panel) : Panel :=
  let p := foldl (fun p '(key, value) => with_requested (requested p ++ [(key, value)]) p)
                 p recommendedSettings in
  let p := with_notices
             (notices p ++ [Information "✅ Recommended low vision settings applied!"]) p in
  _sendCurrentSettings p.

(** The listener of [onDidReceiveMessage]. *)
Definition onDidReceiveMessage (writable : string -> bool)
    (message : Webview.Command) (p : Panel) : Panel :=
  match message with
  | Webview.ApplySettings settings => _applySettings writable settings p
  | Webview.ResetSettings settingKeys => _resetSettings settingKeys p
  | Webview.ApplyRecommended => _applyRecommendedSettings p
  | Webview.GetCurrentSettings => _sendCurrentSettings p
  end.

(** *** The event loop

    Time only moves between events.  Moving it to [t] runs the timeouts
    that are due by then, the earliest first, each at the time it is
    due. *)

Definition earlier (a b : nat * Z) : Prop := a.2 <= b.2.

#[local] Instance earlier_dec : RelDecision earlier := fun a b => decide (a.2 <= b.2).

Definition due (t : Z) (p : Panel) : list (nat * Z) :=
  merge_sort earlier (filter (fun timer => timer.2 <= t) (map_to_list (timers p))).

Definition fire (p : Panel) (timer : nat * Z) : Panel :=
  _sendCurrentSettings (with_now (Z.max (now p) timer.2) (clearTimeout timer.1 p)).

Definition advance (t : Z) (p : Panel) : Panel :=
  let p' := foldl fire p (due t p) in
  with_now (Z.max (now p') t) p'.

(** The store changing, by whoever's hand, to the contents [config'] and
    notifying the panel of the keys that changed. *)
Definition changed (p : Panel) (event : Z * Configuration * list string) : Panel :=
  let '(t, config', e) := event in
  onDidChangeConfiguration e (with_config config' (advance t p)).

Definition changes (events : list (Z * Configuration * list string)) (p : Panel) : Panel :=
  foldl changed p events.

(** A panel that has just been opened on the store [c] at time [t]. *)
Definition opened (c : Configuration) (t : Z) : Panel :=
  {| config := c; requested := []; timers := ∅; next_handle := 0;
     _configUpdateTimer := None; sent := []; notices := []; now := t |}.

(** The last write a list of requests makes to a key, when the store
    accepts one: [Some None] clears the key, [Some (Some v)] sets it. *)
Definition stored (v : Value) : option Value :=
  match v with
  | Undefined => None
  | _ => Some v
  end.

Fixpoint last_write (writable : string -> bool) (requests : list (string * Value))
    (k : string) : option (option Value) :=
  match requests with
  | [] => None
  | (key, value) :: rest =>
      match last_write writable rest k with
      | Some o => Some o
      | None => if writable key && bool_decide (key = k) then Some (stored value) else None
      end
  end.

(** The notifier is pending: one timeout is armed, due a quiet period
    after time [t], nothing more has been sent than [s], the store reads
    [c] and the clock [n], with the timeout still to come. *)
Definition armed (p : Panel) (t n : Z) (c : Configuration)
    (s : list (Z * list (string * Value))) : Prop :=
  exists handle,
    timers p = {[handle := t + 300]} /\ _configUpdateTimer p = Some handle /\
    sent p = s /\ config p = c /\ now p = n /\ t <= n < t + 300.



Fixpoint last_time (n : Z) (events : list (Z * Configuration * list string)) : Z :=
  match events with
  | [] => n
  | (t', _, _) :: rest => last_time t' rest
  end.


End Extension.

(** ** The change handlers of the controls *)

Module Controls.
Import JS Dom Webview.

(** *** parseInt

    [parseInt(string)], no radix given: the leading digits of the
    trimmed string after an optional sign, in base 16 after a [0x]
    prefix and in base 10 otherwise, rounded to the nearest float; NaN
    when there is no digit. *)

Definition hex_digit (c : ascii) : option Z :=
  let n := nat_of_ascii c in
  if (48 <=? n)%nat && (n <=? 57)%nat then Some (Z.of_nat (n - 48))
  else if (97 <=? n)%nat && (n <=? 102)%nat then Some (Z.of_nat (n - 87))
  else if (65 <=? n)%nat && (n <=? 70)%nat then Some (Z.of_nat (n - 55))
  else None.

Fixpoint read_hex (s : string) (acc : Z) (count : nat) : Z * nat :=
  match s with
  | String c s' =>
      match hex_digit c with
      | Some d => read_hex s' (16 * acc + d) (S count)
      | None => (acc, count)
      end
  | EmptyString => (acc, count)
  end.

Definition integer (neg : bool) (digits : Z * nat) : float :=
  match digits with
  | (_, O) => nan
  | (0, _) => if neg then (-0)%float else 0%float
  | (n, _) => SF2Prim (binary_normalize prec emax (if neg then - n else n) 0 neg)
  end.

Definition parse_digits (neg : bool) (s : string) : float :=
  if String.prefix "0x" s || String.prefix "0X" s
  then integer neg (read_hex (String.substring 2 (String.length s - 2) s) 0 0)
  else let '(n, count, _) := read_digits s 0 0 in integer neg (n, count).

Definition parseInt (input : string) : float :=
  match trim_start input with
  | String "-" s => parse_digits true s
  | String "+" s => parse_digits false s
  | s => parse_digits false s
  end.

(** What a control's [onchange] attribute makes of [this.value] before
    it hands it to [applySetting]. *)
Inductive Coercion : Type :=
  | AsString          (* this.value *)
  | AsBoolean         (* this.value === 'true' *)
  | AsFloat           (* parseFloat(this.value) *)
  | AsInt             (* parseInt(this.value) *)
  | AsFloatOrZero.    (* parseFloat(this.value) || 0 *)

Definition coerce (c : Coercion) (raw : string) : Value :=
  match c with
  | AsString => Str raw
  | AsBoolean => Bool (String.eqb raw "true")
  | AsFloat => Num (parseFloat raw)
  | AsInt => Num (parseInt raw)
  | AsFloatOrZero => or_else (Num (parseFloat raw)) (Num 0)
  end.

(** The [onchange] attributes of the markup, by the id of the control;
    each commits under the control's own id. *)
Definition handlers : list (string * Coercion) :=
  [ ("workbench.colorTheme", AsString);
    ("window.zoomLevel", AsFloat);
    ("editor.fontFamily", AsString);
    ("editor.fontSize", AsInt);
    ("editor.lineHeight", AsFloatOrZero);
    ("editor.letterSpacing", AsFloat);
    ("editor.mouseWheelZoom", AsBoolean);
    ("editor.cursorStyle", AsString);
    ("editor.cursorBlinking", AsString);
    ("editor.matchBrackets", AsString);
    ("editor.bracketPairColorization.enabled", AsBoolean);
    ("editor.wordWrap", AsString);
    ("editor.accessibilitySupport", AsString);
    ("editor.minimap.enabled", AsBoolean);
    ("terminal.integrated.fontSize", AsInt);
    ("terminal.integrated.cursorStyle", AsString);
    ("editor.guides.indentation", AsBoolean);
    ("editor.guides.bracketPairs", AsString);
    ("editor.smoothScrolling", AsBoolean);
    ("editor.scrollbar.verticalScrollbarSize", AsInt);
    ("editor.scrollbar.horizontalScrollbarSize", AsInt);
    ("editor.wrappingIndent", AsString);
    ("editor.suggestFontSize", AsInt);
    ("editor.suggestLineHeight", AsInt);
    ("editor.inlayHints.enabled", AsString);
    ("editor.parameterHints.enabled", AsBoolean);
    ("editor.hover.enabled", AsBoolean);
    ("workbench.preferredDarkColorTheme", AsString);
    ("workbench.preferredLightColorTheme", AsString);
    ("workbench.preferredHighContrastColorTheme", AsString);
    ("terminal.integrated.lineHeight", AsFloat);
    ("terminal.integrated.cursorBlinking", AsBoolean) ].

Definition handler (key : string) : option Coercion :=
  snd <$> find (fun h => String.eqb h.1 key) handlers.

(** The user changing the control [key], its value reading [raw]. *)
Definition onchange (key raw : string) (st : State) : State :=
  match handler key with
  | Some c => applySetting key (coerce c raw) st
  | None => st
  end.

(** The element an assignment is made to. *)
Definition target (op : HostOp) : string :=
  match op with
  | SetValue t _ => t
  | SetTextContent t _ => t
  end.

(** The sliders of the panel, and those among them whose label reads
    in pixels. *)
Definition sliders : list string :=
  el_id <$> List.filter (fun el => bool_decide (el_type el = Some "range")) panel.

Definition px_sliders : list string :=
  [ "editor.scrollbar.verticalScrollbarSize";
    "editor.scrollbar.horizontalScrollbarSize";
    "editor.suggestFontSize" ].

(** All the characters of the string are decimal digits. *)
Definition all_digits (s : string) : Prop :=
  Forall (fun c => is_digit c = true) (list_ascii_of_string s).

End Controls.

(** ** A snapshot's entry against the ledger *)

Module Ledger.
Import JS.

(** The entry is suppressed: the ledger holds another value for its key. *)
Definition stale (pending : gmap string Value) (entry : string * Value) : bool :=
  match pending !! entry.1 with
  | Some p => negb (strict_equals p entry.2)
  | None => false
  end.

(** The entry resolves the one the ledger holds for its key. *)
Definition resolved (pending : gmap string Value) (entry : string * Value) : bool :=
  match pending !! entry.1 with
  | Some p => strict_equals p entry.2
  | None => false
  end.

(** The value of the last commit to [K] among the actions, [o] when
    there is none. *)
Definition last_commit (K : string) (actions : list Webview.Action) (o : option Value)
  : option Value :=
  foldl (fun o a =>
           match a with
           | Webview.Commit key value => if bool_decide (key = K) then Some value else o
           | _ => o
           end) o actions.

End Ledger.

(** ** The panel among its events *)

Module Loop.
Import JS Extension.

(** What can happen to the panel: the store changing and notifying, a
    message of the webview arriving, the clock moving on; each at its
    time. *)
Inductive Event : Type :=
  | Changed (config' : Configuration) (e : list string)
  | Received (message : Webview.Command)
  | Tick.

Definition step (writable : string -> bool) (p : Panel) (event : Z * Event) : Panel :=
  let '(t, ev) := event in
  let p := advance t p in
  match ev with
  | Changed config' e => onDidChangeConfiguration e (with_config config' p)
  | Received message => onDidReceiveMessage writable message p
  | Tick => p
  end.

Definition process (writable : string -> bool) (events : list (Z * Event)) (p : Panel)
  : Panel :=
  foldl (step writable) p events.

(** At most one timeout is armed, and it is the one [_configUpdateTimer]
    names. *)
Definition tidy (p : Panel) : Prop :=
  timers p = ∅ \/
  exists handle d, timers p = {[handle := d]} /\ _configUpdateTimer p = Some handle.

(** Relevant change events that are more than a quiet period apart, the
    first one after [n]. *)
Fixpoint spaced (n : Z) (events : list (Z * Configuration * list string)) : Prop :=
  match events with
  | [] => True
  | (t, _, e) :: rest => n < t /\ relevant e = true /\ spaced (t + 300) rest
  end.

(** The snapshot each of them gets sent, a quiet period after it. *)
Definition passes (events : list (Z * Configuration * list string))
  : list (Z * list (string * Value)) :=
  map (fun event => (event.1.1 + 300, currentSettings event.1.2)) events.

(** The store once it has carried out what the extension requests on
    the commit of [V] to [K], and the script once the snapshot of that
    store has reached it. *)
Definition written (writable : string -> bool) (K : string) (V : Value) (p : Panel)
    (c : Configuration) : Configuration :=
  carry_out writable
    (requested (onDidReceiveMessage writable (Webview.ApplySettings [(K, V)]) p)) c.

Definition echoed (host : Dom.ValueSetter) (document : Dom.Document)
    (writable : string -> bool) (K : string) (V : Value) (p : Panel) (c : Configuration)
    (st : Webview.State) : Webview.State :=
  Webview.onUpdateSettings host document (currentSettings (written writable K V p c))
    (Webview.applySetting K V st).

End Loop.

(** ** Activation: the prompt to install the font

    [maybePromptForFontInstall] of extension.ts, which [activate] runs
    each time the extension is activated. *)

Module Activation.

(** [vscode.FileType.File]; the other types are other numbers. *)
Definition File : Z := 1.

(** [fontsDir], and [Uri.joinPath(fontsDir, name)]. *)
Inductive Uri : Type :=
  | FontsDir
  | FontFile (name : string).

(** What the user gets to see of it. *)
Inductive Effect : Type :=
  | ShowPrompt                           (* the message with its three buttons *)
  | OpenExternal (url : string)
  | RevealFileInOS (uri : Uri)
  | ShowInformation (text : string)
  | ShowError (text : string).

(** What the host answers in the course of one activation: the button
    the user chose, if any; whether [openExternal] and the
    [revealFileInOS] command return rather than throw; the entries of
    the fonts folder, unless [readDirectory] throws. *)
Record Host : Type := {
  result : option string;
  openExternal_returns : bool;
  entries : option (list (string * Z));
  revealFileInOS_returns : bool
}.

(** [toLowerCase()], on the letters of ASCII; the characters beyond
    them have no part in a match with [.ttf]. *)
Definition lower (c : ascii) : ascii :=
  let n := nat_of_ascii c in
  if (65 <=? n)%nat && (n <=? 90)%nat then ascii_of_nat (n + 32) else c.

Fixpoint toLowerCase (s : string) : string :=
  match s with
  | String c s' => String (lower c) (toLowerCase s')
  | EmptyString => EmptyString
  end.

Definition endsWith (s suffix : string) : bool :=
  (String.length suffix <=? String.length s)%nat &&
  String.eqb (String.substring (String.length s - String.length suffix)
                               (String.length suffix) s) suffix.

Definition is_ttf (entry : string * Z) : bool :=
  (entry.2 =? File) && endsWith (toLowerCase entry.1) ".ttf".

(** The flag [lowVision.fontInstallPromptShown] of the global state
    goes in and comes out, with what was shown. *)
Definition maybePromptForFontInstall (h : Host) (alreadyShown : bool) : bool * list Effect :=
  if alreadyShown then (alreadyShown, [])
  else
    match result h with
    | None => (alreadyShown, [ShowPrompt])
    | Some r =>
        if String.eqb r "" then (alreadyShown, [ShowPrompt])
        else if String.eqb r "Don't show again" then (true, [ShowPrompt])
        else if String.eqb r "How to Install" then
          let url := "https://github.com/thommadurasahan/atkinson-hyperlegible-next-mono" in
          if openExternal_returns h then (true, [ShowPrompt; OpenExternal url])
          else (alreadyShown, [ShowPrompt; OpenExternal url])
        else if String.eqb r "Install Font Now" then
          let revealUri :=
            match entries h with
            | Some listing => (fun ttf => FontFile ttf.1) <$> find is_ttf listing
            | None => None
            end in
          let uri := default FontsDir revealUri in
          if revealFileInOS_returns h then
            (true,
             [ShowPrompt; RevealFileInOS uri;
              ShowInformation
                "In the folder that opened, double-click a .ttf file to install the font in your OS."])
          else
            (alreadyShown,
             [ShowPrompt; RevealFileInOS uri;
              ShowError
                "Could not open the fonts folder. Please check the extension installation."])
        else (alreadyShown, [ShowPrompt])
    end.

(** One activation after the other, each with its host. *)
Definition activations (hosts : list Host) (alreadyShown : bool) : bool * list Effect :=
  foldl (fun state h =>
           let '(shown, effects) := maybePromptForFontInstall h state.1 in
           (shown, state.2 ++ effects))
        (alreadyShown, []) hosts.

Definition is_prompt (effect : Effect) : bool :=
  match effect with
  | ShowPrompt => true
  | _ => false
  end.

End Activation.

(** ** The page as the browser keeps it

    What a control holds once the script has assigned to it: a range
    input keeps its value among the numbers its [min], [max] and [step]
    attributes allow (the value sanitization of HTML), a number input
    keeps a number or nothing. *)

Module Page.
Import JS Dom.

(** The exact value of a finite float, and the float nearest to a
    rational. *)
Definition real (x : float) : option Q :=
  match Prim2SF x with
  | S754_zero _ => Some 0%Q
  | S754_finite s m e => Some (if s then - magnitude m e else magnitude m e)%Q
  | _ => None
  end.

Definition nearest (q : Q) : float :=
  match Qnum q with
  | Z0 => 0%float
  | Z.pos p => SF2Prim (SFdiv prec emax (S754_finite false p 0) (S754_finite false (Qden q) 0))
  | Z.neg p => SF2Prim (SFdiv prec emax (S754_finite true p 0) (S754_finite false (Qden q) 0))
  end.

(** A valid floating-point number of HTML: an optional minus, then
    digits, or a point and digits, or both, then an optional exponent,
    and nothing else. *)
Definition valid_exponent (s : string) : bool :=
  match s with
  | EmptyString => true
  | String c s' =>
      (Ascii.eqb c "e" || Ascii.eqb c "E") &&
      let digits := match s' with
                    | String "-" t => t
                    | String "+" t => t
                    | _ => s'
                    end in
      let '(_, count, rest) := read_digits digits 0 0 in
      negb (Nat.eqb count 0) && String.eqb rest ""
  end.

Definition valid_float (s : string) : bool :=
  let s := match s with
           | String "-" t => t
           | _ => s
           end in
  let '(_, icount, rest) := read_digits s 0 0 in
  match rest with
  | String "." rest' =>
      let '(_, fcount, rest'') := read_digits rest' 0 0 in
      negb (Nat.eqb fcount 0) && valid_exponent rest''
  | _ => negb (Nat.eqb icount 0) && valid_exponent rest
  end.

(** The [min], [max] and [step] attributes of the range inputs of the
    markup. *)
Definition attributes : list (string * (Q * Q * Q)) :=
  [ ("window.zoomLevel", (-3, 5, 1 # 2));
    ("editor.fontSize", (12, 24, 1));
    ("editor.letterSpacing", (0, 2, 1 # 10));
    ("terminal.integrated.fontSize", (12, 24, 1));
    ("editor.scrollbar.verticalScrollbarSize", (10, 30, 2));
    ("editor.scrollbar.horizontalScrollbarSize", (10, 30, 2));
    ("editor.suggestFontSize", (0, 24, 1));
    ("editor.suggestLineHeight", (0, 8, 1 # 10));
    ("terminal.integrated.lineHeight", (1, 2, 1 # 10)) ]%Q.

(** The number a range input keeps of [q]: [min] below [min], [max]
    above [max], and between them the nearest of [min], [min + step],
    [min + 2 step], ..., the larger of two equally near. *)
Definition allowed (min max step q : Q) : Q :=
  let q := if Qle_bool q min then min else if Qle_bool max q then max else q in
  let n := Qfloor ((q - min) / step + (1 # 2)) in
  let n := if Qle_bool (min + inject_Z n * step) max then n else n - 1 in
  (min + inject_Z n * step)%Q.

(** The value sanitization of a range input: what is not a number
    becomes the default value, half way between [min] and [max]. *)
Definition sanitize (min max step : Q) (s : string) : string :=
  let q := match (if valid_float s then real (parseFloat s) else None) with
           | Some q => q
           | None => ((min + max) / 2)%Q
           end in
  Number_toString (nearest (allowed min max step q)).

(** The host of the panel's page; a dropdown is taken to have the option
    it is assigned. *)
Definition page_setter : ValueSetter :=
  fun element v =>
    let s := plain_setter element v in
    if bool_decide (el_type element = Some "range") then
      match find (fun a => String.eqb a.1 (el_id element)) attributes with
      | Some (_, (min, max, step)) => sanitize min max step s
      | None => sanitize 0 100 1 s
      end
    else if bool_decide (el_type element = Some "number") then
      if valid_float s then s else ""
    else s.

End Page.

(** ** The ledger as the object it is

    [pendingUpdates] as the list of its own properties, in the order of
    their creation: a list can hold two entries for a key, so that it
    is for the operations to keep it from doing so. *)

Module Entries.
Import JS.

(** [Object.prototype.hasOwnProperty.call(o, key)]. *)
Definition hasOwnProperty (o : list (string * Value)) (key : string) : bool :=
  existsb (fun e => String.eqb e.1 key) o.

(** [o[key]], of an own property. *)
Definition get (o : list (string * Value)) (key : string) : Value :=
  match find (fun e => String.eqb e.1 key) o with
  | Some e => e.2
  | None => Undefined
  end.

(** [o[key] = value]: the property is given the value where it stands,
    or created after the others.  The key [__proto__] is the accessor
    of [Object.prototype], whose setter ignores a primitive value: no
    property is created. *)
Fixpoint put (o : list (string * Value)) (key : string) (value : Value) : list (string * Value) :=
  match o with
  | [] => [(key, value)]
  | (k, v) :: rest =>
      if String.eqb k key then (k, value) :: rest else (k, v) :: put rest key value
  end.

Definition set (o : list (string * Value)) (key : string) (value : Value) : list (string * Value) :=
  if String.eqb key "__proto__" then o else put o key value.

(** [delete o[key]]. *)
Definition delete (o : list (string * Value)) (key : string) : list (string * Value) :=
  List.filter (fun e => negb (String.eqb e.1 key)) o.

(** [applySetting(key, value)], on the ledger. *)
Definition applySetting (key : string) (value : Value) (pendingUpdates : list (string * Value)) : list (string * Value) :=
  set pendingUpdates key value.

(** One turn of the loop of [updateUIWithSettings], on the ledger. *)
Definition reconcile (pendingUpdates : list (string * Value)) (entry : string * Value) : list (string * Value) :=
  let '(key, value) := entry in
  if hasOwnProperty pendingUpdates key then
    if negb (strict_equals (get pendingUpdates key) value)
    then pendingUpdates                                  (* continue *)
    else delete pendingUpdates key
  else pendingUpdates.

Definition updateUIWithSettings (pendingUpdates : list (string * Value)) (settings : list (string * Value))
  : list (string * Value) :=
  foldl reconcile pendingUpdates settings.

(** What each action of the script does to the ledger. *)
Definition act (pendingUpdates : list (string * Value)) (a : Webview.Action) : list (string * Value) :=
  match a with
  | Webview.Commit key value => applySetting key value pendingUpdates
  | Webview.UpdateSettings settings => updateUIWithSettings pendingUpdates settings
  | _ => pendingUpdates
  end.

Definition run (actions : list Webview.Action) (pendingUpdates : list (string * Value)) : list (string * Value) :=
  foldl act pendingUpdates actions.

(** The Pending Entries the ledger holds for [key]. *)
Definition entries_for (key : string) (pendingUpdates : list (string * Value)) : list (string * Value) :=
  filter (fun e => e.1 = key) pendingUpdates.

(** No action commits to [__proto__] (none of the page's controls has
    that id). *)
Definition ordinary (actions : list Webview.Action) : Prop :=
  Forall (fun a => match a with
                   | Webview.Commit key _ => key <> "__proto__"
                   | _ => True
                   end) actions.

End Entries.

(** * Properties *)

Import JS Dom Webview.

(** ** Strings and lookups *)

Lemma length_append (s t : string) :
  String.length (s +:+ t) = (String.length s + String.length t)%nat.
Proof. induction s as [|c s IH]; simpl; [done | by rewrite IH]. Qed.

Lemma append_inj_l (s1 s2 t : string) : s1 +:+ t = s2 +:+ t -> s1 = s2.
Proof.
  revert s2. induction s1 as [|c s1 IH]; intros [|d s2] H; simpl in *.
  - done.
  - apply (f_equal String.length) in H. rewrite !length_append in H. simpl in H.
    rewrite ?length_append in H. lia.
  - apply (f_equal String.length) in H. rewrite !length_append in H. simpl in H.
    rewrite ?length_append in H. lia.
  - injection H as -> H. f_equal. by apply IH.
Qed.

Lemma getElementById_id document i el :
  getElementById document i = Some el -> el_id el = i.
Proof.
  unfold getElementById. intros H. apply find_some in H as [_ H].
  by apply String.eqb_eq in H.
Qed.

(** ** Strict equality on plain values *)

Lemma SFeqb_plain f g :
  f <> S754_nan -> f <> S754_zero true -> g <> S754_nan -> g <> S754_zero true ->
  SFeqb f g = true <-> f = g.
Proof.
  intros Hf1 Hf2 Hg1 Hg2. unfold SFeqb, SFcompare. split.
  - destruct f as [[]| [] | |[] m1 e1], g as [[]|[]| |[] m2 e2]; try done.
    + destruct (e1 ?= e2) eqn:He; try done. apply Z.compare_eq in He as ->.
      destruct (Pos.compare_cont Eq m1 m2) eqn:Hm; try done.
      by apply Pos.compare_eq in Hm as ->.
    + destruct (e1 ?= e2) eqn:He; try done. apply Z.compare_eq in He as ->.
      destruct (Pos.compare_cont Eq m1 m2) eqn:Hm; try done.
      by apply Pos.compare_eq in Hm as ->.
  - intros <-. destruct f as [[]| [] | |[] m1 e1]; try done.
    + rewrite Z.compare_refl. fold (Pos.compare m1 m1). by rewrite Pos.compare_refl.
    + rewrite Z.compare_refl. fold (Pos.compare m1 m1). by rewrite Pos.compare_refl.
Qed.

Lemma strict_equals_plain a b :
  plain a -> plain b -> strict_equals a b = true <-> a = b.
Proof.
  destruct a as [| |x|x|x], b as [| |y|y|y]; simpl; intros Ha Hb; try done.
  - rewrite Bool.eqb_true_iff. split; congruence.
  - rewrite FloatAxioms.eqb_spec. unfold plain_number in *.
    rewrite SFeqb_plain.
    + split; [intros ?%Prim2SF_inj; congruence | congruence].
    + by destruct (Prim2SF x).
    + by destruct (Prim2SF x) as [[]| | |].
    + by destruct (Prim2SF y).
    + by destruct (Prim2SF y) as [[]| | |].
  - rewrite String.eqb_eq. split; congruence.
Qed.

Lemma strict_equals_distinct a b :
  plain a -> plain b -> strict_equals a b = false -> a <> b.
Proof.
  intros Ha Hb E ->. assert (strict_equals b b = true) by by apply strict_equals_plain.
  congruence.
Qed.

Lemma strict_equals_nullish v : nullish v = true -> strict_equals v v = true.
Proof. by destruct v. Qed.

(** ** The reconciliation pass *)

Section Reconciliation.

Variable host : ValueSetter.
Variable document : Document.

Lemma updateRangeValue_concerns element op :
  op ∈ updateRangeValue document element ->
  exists text, op = SetTextContent (el_id element +:+ "-value") text.
Proof.
  unfold updateRangeValue.
  destruct (getElementById document _) as [valueSpan|] eqn:Hspan; [|by intros ?%elem_of_nil].
  apply getElementById_id in Hspan. rewrite Hspan.
  intros ->%list_elem_of_singleton. eauto.
Qed.

(** Whatever [updateControl] assigns for a key concerns that key's control. *)
Lemma updateControl_concerns key value op :
  op ∈ updateControl host document key value ->
  concerns key op = true.
Proof.
  unfold updateControl.
  destruct (getElementById document key) as [element|] eqn:Hel; [|by intros ?%elem_of_nil].
  apply getElementById_id in Hel. rewrite Hel.
  destruct (bool_decide (el_type element = Some "range")).
  { intros [->|Hop]%elem_of_cons; [simpl; by apply String.eqb_refl|].
    apply updateRangeValue_concerns in Hop as [text ->]. simpl. rewrite Hel.
    by apply String.eqb_refl. }
  destruct (bool_decide (el_type element = Some "number")).
  { intros ->%list_elem_of_singleton. simpl. by apply String.eqb_refl. }
  destruct (String.eqb (el_tagName element) "SELECT" && is_boolean value).
  { intros ->%list_elem_of_singleton. simpl. by apply String.eqb_refl. }
  destruct (String.eqb (el_tagName element) "SELECT");
    intros ->%list_elem_of_singleton; simpl; by apply String.eqb_refl.
Qed.

Lemma updateControl_other key value K op :
  key <> K -> op ∈ updateControl host document key value -> concerns K op = false.
Proof.
  intros Hne Hop. apply updateControl_concerns in Hop.
  destruct op as [target v|target text]; simpl in *.
  - apply String.eqb_eq in Hop as ->. by apply String.eqb_neq.
  - apply String.eqb_eq in Hop as ->. apply String.eqb_neq.
    intros ?%append_inj_l. done.
Qed.

Lemma updateControl_unmanaged K value :
  getElementById document K = None -> updateControl host document K value = [].
Proof. unfold updateControl. by intros ->. Qed.

Lemma pushes_to_all key ops :
  (forall op, op ∈ ops -> concerns key op = true) -> pushes_to key ops = ops.
Proof.
  unfold pushes_to. induction ops as [|op ops IH]; intros H; simpl; [done|].
  rewrite H; [|by left]. f_equal. apply IH. intros. apply H. by right.
Qed.

Lemma pushes_to_none key ops :
  (forall op, op ∈ ops -> concerns key op = false) -> pushes_to key ops = [].
Proof.
  unfold pushes_to. induction ops as [|op ops IH]; intros H; simpl; [done|].
  rewrite H; [|by left]. apply IH. intros. apply H. by right.
Qed.

Lemma pushes_to_app key ops1 ops2 :
  pushes_to key (ops1 ++ ops2) = pushes_to key ops1 ++ pushes_to key ops2.
Proof. apply List.filter_app. Qed.

Lemma pushes_to_updateControl key value :
  pushes_to key (updateControl host document key value) = updateControl host document key value.
Proof. apply pushes_to_all. intros. by eapply updateControl_concerns. Qed.

Lemma pushes_to_updateControl_other key value K :
  key <> K -> pushes_to K (updateControl host document key value) = [].
Proof. intros. apply pushes_to_none. intros. by eapply updateControl_other. Qed.

(** The loop, started with assignments already made. *)
Lemma foldl_reconcile_ops pending ops settings :
  foldl (reconcile host document) (pending, ops) settings =
  ((updateUIWithSettings host document pending settings).1,
   ops ++ (updateUIWithSettings host document pending settings).2).
Proof.
  unfold updateUIWithSettings.
  revert pending ops. induction settings as [|[key value] settings IH]; intros pending ops; simpl.
  - by rewrite app_nil_r.
  - destruct (pending !! key) as [p|]; [destruct (negb _)|];
      rewrite IH; symmetry; rewrite IH; simpl; by rewrite ?app_assoc.
Qed.

(** The loop, unfolded by one entry. *)
Lemma updateUIWithSettings_cons pending key value settings :
  updateUIWithSettings host document pending ((key, value) :: settings) =
  let st := reconcile host document (pending, []) (key, value) in
  ((updateUIWithSettings host document st.1 settings).1,
   st.2 ++ (updateUIWithSettings host document st.1 settings).2).
Proof.
  unfold updateUIWithSettings at 1.
  change (foldl ?f ?a (?x :: ?l)) with (foldl f (f a x) l).
  destruct (reconcile host document (pending, []) (key, value)) as [p o].
  apply foldl_reconcile_ops.
Qed.

Lemma reconcile_other pending key value K :
  key <> K ->
  (reconcile host document (pending, []) (key, value)).1 !! K = pending !! K /\
  pushes_to K (reconcile host document (pending, []) (key, value)).2 = [].
Proof.
  intros Hne. unfold reconcile.
  destruct (pending !! key); [destruct (negb _)|]; simpl;
    rewrite ?lookup_delete_ne, ?pushes_to_updateControl_other by done; done.
Qed.

(** A key that the snapshot does not mention keeps its entry and its control. *)
Lemma updateUIWithSettings_absent pending settings K :
  K ∉ settings.*1 ->
  (updateUIWithSettings host document pending settings).1 !! K = pending !! K /\
  pushes_to K (updateUIWithSettings host document pending settings).2 = [].
Proof.
  revert pending. induction settings as [|[key value] settings IH]; intros pending Hnot.
  - done.
  - rewrite fmap_cons, not_elem_of_cons in Hnot. destruct Hnot as [Hne Hnot]. simpl in Hne.
    rewrite updateUIWithSettings_cons.
    set (st := reconcile host document (pending, []) (key, value)).
    destruct (IH st.1 Hnot) as [IH1 IH2].
    cbn zeta. simpl. rewrite IH1, pushes_to_app, IH2, app_nil_r.
    by apply reconcile_other.
Qed.

(** What a pass does about a key the snapshot mentions. *)
Lemma updateUIWithSettings_at pending settings K V' :
  NoDup settings.*1 -> (K, V') ∈ settings ->
  ((updateUIWithSettings host document pending settings).1 !! K,
   pushes_to K (updateUIWithSettings host document pending settings).2) =
  match pending !! K with
  | Some V =>
      if strict_equals V V' then (None, updateControl host document K V') else (Some V, [])
  | None => (None, updateControl host document K V')
  end.
Proof.
  revert pending. induction settings as [|[key value] settings IH]; intros pending Hnd Hin.
  - by apply elem_of_nil in Hin.
  - rewrite fmap_cons in Hnd. apply NoDup_cons in Hnd as [Hfresh Hnd]. simpl in Hfresh.
    rewrite updateUIWithSettings_cons.
    set (st := reconcile host document (pending, []) (key, value)).
    cbn zeta. simpl. rewrite pushes_to_app.
    apply elem_of_cons in Hin as [[= <- <-]|Hin].
    + destruct (updateUIWithSettings_absent st.1 settings K Hfresh) as [-> ->].
      rewrite app_nil_r. subst st. unfold reconcile.
      destruct (pending !! K) as [V|] eqn:HK; [destruct (strict_equals V V')|]; simpl;
        rewrite ?lookup_delete_eq, ?pushes_to_updateControl, ?HK; done.
    + assert (key <> K) as Hne.
      { intros ->. apply Hfresh. apply list_elem_of_fmap. by exists (K, V'). }
      pose proof (IH st.1 Hnd Hin) as Htail.
      destruct (reconcile_other pending key value K Hne) as [Hfst Hsnd].
      fold st in Hfst, Hsnd. rewrite Hfst in Htail. rewrite Hsnd. simpl.
      by rewrite <- Htail.
Qed.

(** Every assignment of a pass is one [updateControl] made for an entry
    of the snapshot. *)
Lemma updateUIWithSettings_origin pending settings op :
  op ∈ (updateUIWithSettings host document pending settings).2 ->
  exists key value, (key, value) ∈ settings /\ op ∈ updateControl host document key value.
Proof.
  revert pending. induction settings as [|[key value] settings IH]; intros pending.
  - by intros ?%elem_of_nil.
  - rewrite updateUIWithSettings_cons. cbn zeta. simpl.
    intros [Hop|Hop]%elem_of_app.
    + exists key, value. split; [by left|].
      unfold reconcile in Hop.
      destruct (pending !! key); [destruct (negb _)|]; simpl in Hop;
        try done; by apply elem_of_nil in Hop.
    + apply IH in Hop as (k & v & Hin & Hop). exists k, v. split; [by right | done].
Qed.

(** A pass over a snapshot and the pass over the snapshot without an
    unmanaged key make the same assignments, whatever the ledger holds
    for that key. *)
Lemma unmanaged_skip pending pending' settings K :
  getElementById document K = None ->
  (forall k, k <> K -> pending !! k = pending' !! k) ->
  (updateUIWithSettings host document pending settings).2 =
  (updateUIWithSettings host document pending' (filter (fun e => e.1 <> K) settings)).2.
Proof.
  intros Hnone. revert pending pending'.
  induction settings as [|[key value] settings IH]; intros pending pending' Hagree.
  - done.
  - rewrite updateUIWithSettings_cons. cbn zeta. simpl snd.
    rewrite filter_cons. simpl. destruct (decide (key <> K)) as [Hne|Heq].
    + rewrite updateUIWithSettings_cons. cbn zeta. simpl snd.
      unfold reconcile. rewrite <- (Hagree key Hne).
      destruct (pending !! key) as [p|]; [destruct (negb _)|]; simpl.
      * by apply IH.
      * f_equal. apply IH. intros k Hk. destruct (decide (k = key)) as [->|?].
        { by rewrite !lookup_delete_eq. }
        rewrite !lookup_delete_ne by done. by apply Hagree.
      * f_equal. by apply IH.
    + apply dec_stable in Heq as ->.
      unfold reconcile.
      destruct (pending !! K) as [p|]; [destruct (negb _)|]; simpl;
        rewrite ?updateControl_unmanaged by done; simpl; apply IH; try done.
      intros k Hk. rewrite lookup_delete_ne by done. by apply Hagree.
Qed.

(** C1. Staleness suppression: for a key [K] with a Pending Entry of
    value [V], a pass over a snapshot in which [K] maps to another value
    makes no assignment to [K]'s control and leaves the entry in place;
    a pass over a snapshot in which [K] maps to [V] assigns the control
    (value and label, as [updateControl] formats them) and deletes the
    entry.  The values are setting values, on which [===] is equality
    ([plain]); the snapshot is the entries of an object, whose keys are
    distinct. *)
Theorem staleness_suppression pending settings K V V' :
  NoDup settings.*1 -> pending !! K = Some V -> (K, V') ∈ settings ->
  plain V -> plain V' ->
  let after := updateUIWithSettings host document pending settings in
  (V' <> V -> after.1 !! K = Some V /\ pushes_to K after.2 = []) /\
  (V' = V -> after.1 !! K = None /\ pushes_to K after.2 = updateControl host document K V).
Proof.
  intros Hnd Hpending Hin HV HV' after.
  pose proof (updateUIWithSettings_at pending settings K V' Hnd Hin) as Hat.
  fold after in Hat. rewrite Hpending in Hat.
  split.
  - intros Hne. destruct (strict_equals V V') eqn:E.
    + apply strict_equals_plain in E; [congruence | done | done].
    + by injection Hat as -> ->.
  - intros ->. destruct (strict_equals V V) eqn:E.
    + by injection Hat as -> ->.
    + assert (strict_equals V V = true) by by apply strict_equals_plain.
      congruence.
Qed.

(** C2. Last intent wins: [applySetting(K, A)] followed by
    [applySetting(K, B)] leaves the ledger as [applySetting(K, B)] alone
    does; a later snapshot with [K = A] is then suppressed as stale, and
    one with [K = B] resolves the entry and is pushed. *)
Theorem last_intent_wins st settings K A B :
  NoDup settings.*1 -> plain A -> plain B -> A <> B ->
  let twice := applySetting K B (applySetting K A st) in
  let after := updateUIWithSettings host document (pendingUpdates twice) settings in
  pendingUpdates twice = pendingUpdates (applySetting K B st) /\
  ((K, A) ∈ settings -> after.1 !! K = Some B /\ pushes_to K after.2 = []) /\
  ((K, B) ∈ settings ->
     after.1 !! K = None /\ pushes_to K after.2 = updateControl host document K B).
Proof.
  intros Hnd HA HB Hne twice after.
  assert (pendingUpdates twice !! K = Some B) as Hled.
  { subst twice. simpl. by rewrite lookup_insert_eq. }
  assert (strict_equals B A = false) as Hstale.
  { destruct (strict_equals B A) eqn:E; [|done].
    apply strict_equals_plain in E; [congruence | done | done]. }
  assert (strict_equals B B = true) as Hecho by by apply strict_equals_plain.
  split; [|split].
  - subst twice. simpl. by rewrite insert_insert_eq.
  - intros Hin.
    pose proof (updateUIWithSettings_at (pendingUpdates twice) settings K A Hnd Hin) as Hat.
    fold after in Hat. rewrite Hled, Hstale in Hat. by injection Hat as -> ->.
  - intros Hin.
    pose proof (updateUIWithSettings_at (pendingUpdates twice) settings K B Hnd Hin) as Hat.
    fold after in Hat. rewrite Hled, Hecho in Hat. by injection Hat as -> ->.
Qed.

(** C7. A snapshot key without a control is skipped silently: the pass
    makes no assignment for it, its assignments are those of the pass
    over the snapshot without the key, and nothing is posted to the
    extension (the only side that can notify the user). *)
Theorem unmanaged_key_skipped pending settings K st :
  getElementById document K = None ->
  let after := updateUIWithSettings host document pending settings in
  pushes_to K after.2 = [] /\
  after.2 = (updateUIWithSettings host document pending
               (filter (fun e => e.1 <> K) settings)).2 /\
  posted (onUpdateSettings host document settings st) = posted st.
Proof.
  intros Hnone after. subst after. split; [|split].
  - apply pushes_to_none. intros op Hop.
    apply updateUIWithSettings_origin in Hop as (key & value & _ & Hop).
    destruct (decide (key = K)) as [->|Hne].
    + rewrite updateControl_unmanaged in Hop by done. by apply elem_of_nil in Hop.
    + by eapply updateControl_other.
  - by apply unmanaged_skip.
  - unfold onUpdateSettings. by destruct (updateUIWithSettings _ _ _ _).
Qed.

(** C9. A pass never records an intent: whatever the snapshot, each key
    of the ledger either keeps exactly the entry it had (or its absence),
    or loses an entry that the snapshot's value for the key is [===] to;
    and the pass posts nothing to the extension. *)
Theorem reconciliation_only_resolves pending settings K st :
  let after := (updateUIWithSettings host document pending settings).1 in
  (after !! K = pending !! K \/
   (after !! K = None /\
    exists V V', pending !! K = Some V /\ (K, V') ∈ settings /\ strict_equals V V' = true)) /\
  posted (onUpdateSettings host document settings st) = posted st.
Proof.
  intros after. subst after.
  split; [|unfold onUpdateSettings; by destruct (updateUIWithSettings _ _ _ _)].
  clear st. revert pending. induction settings as [|[key value] settings IH]; intros pending.
  - by left.
  - rewrite updateUIWithSettings_cons.
    set (st := reconcile host document (pending, []) (key, value)).
    cbn zeta. simpl.
    destruct (decide (key = K)) as [->|Hne].
    + subst st. unfold reconcile.
      destruct (pending !! K) as [V|] eqn:HK; [destruct (strict_equals V value) eqn:E|]; simpl.
      * right. split.
        { destruct (IH (delete K pending)) as [->|[-> _]]; [by rewrite lookup_delete_eq | done]. }
        exists V, value. split; [done|]. split; [by left | done].
      * destruct (IH pending) as [Hl|[Hr (V0 & V' & ? & ? & ?)]]; [left; by rewrite Hl|].
        right. split; [done|]. exists V0, V'. split; [congruence|]. split; [by right | done].
      * destruct (IH pending) as [Hl|[Hr (V0 & V' & ? & ? & ?)]]; [left; by rewrite Hl|].
        congruence.
    + destruct (reconcile_other pending key value K Hne) as [Hfst _].
      fold st in Hfst. pose proof (IH st.1) as IHst. cbn zeta in IHst.
      destruct IHst as [Hl|[Hr (V0 & V' & ? & ? & ?)]].
      * left. by rewrite Hl.
      * right. split; [done|]. exists V0, V'. rewrite <- Hfst.
        split; [done|]. split; [by right | done].
Qed.

(** C10, as the code has it. An absent store value is pushed, not
    skipped: for a managed key that reaches the push (no entry pending
    for it, or one that is itself the absent value), a range control is
    assigned 0, and its label shows what the control keeps of the 0: on
    a size-kind slider (FontSize, ScrollbarSize, LineHeight) "Auto" when
    it keeps 0, and the number it keeps otherwise, in pixels for the
    first two; a number input or a dropdown is assigned the empty
    string. *)
Theorem absent_value_pushed pending settings key value element :
  NoDup settings.*1 -> (key, value) ∈ settings -> nullish value = true ->
  getElementById document key = Some element ->
  pending !! key = None \/ pending !! key = Some value ->
  let ops := pushes_to key (updateUIWithSettings host document pending settings).2 in
  let kept := parseFloat (host element (Num 0)) in
  (el_type element = Some "range" ->
     ops = SetValue key (Num 0) :: updateRangeValue document (assigned host element (Num 0)) /\
     (is_Some (getElementById document (key +:+ "-value")) ->
      (includes key "FontSize" || includes key "ScrollbarSize" = true ->
       ops = [SetValue key (Num 0);
              SetTextContent (key +:+ "-value")
                (if PrimFloat.eqb kept 0 then "Auto" else Number_toString kept +:+ "px")]) /\
      (includes key "FontSize" || includes key "ScrollbarSize" = false ->
       includes key "LineHeight" = true ->
       ops = [SetValue key (Num 0);
              SetTextContent (key +:+ "-value")
                (if PrimFloat.eqb kept 0 then "Auto" else toFixed kept 1)]))) /\
  (el_type element = Some "number" -> ops = [SetValue key (Str "")]) /\
  (el_type element <> Some "range" -> el_type element <> Some "number" ->
   el_tagName element = "SELECT" -> ops = [SetValue key (Str "")]).
Proof.
  intros Hnd Hin Hnull Hel Hpending ops kept.
  pose proof (updateUIWithSettings_at pending settings key value Hnd Hin) as Hat.
  assert (ops = updateControl host document key value) as ->.
  { subst ops. destruct Hpending as [Hp|Hp]; rewrite Hp in Hat.
    - by injection Hat.
    - rewrite strict_equals_nullish in Hat by done. by injection Hat. }
  pose proof (getElementById_id _ _ _ Hel) as Hid.
  unfold updateControl. rewrite Hel, Hid, Hnull. cbn [negb].
  split; [|split].
  - intros Htype. rewrite bool_decide_eq_true_2 by done. split; [done|].
    intros [valueSpan Hspan].
    assert (el_id valueSpan = key +:+ "-value") as Hlabel by by apply getElementById_id in Hspan.
    unfold updateRangeValue. cbn [assigned el_id el_value]. rewrite Hid, Hspan, Hlabel.
    fold kept. split.
    + intros ->. by destruct (PrimFloat.eqb kept 0).
    + intros -> ->. by destruct (PrimFloat.eqb kept 0).
  - intros Htype. rewrite bool_decide_eq_false_2 by congruence.
    by rewrite bool_decide_eq_true_2.
  - intros Hr Hn Htag. rewrite !bool_decide_eq_false_2 by done.
    rewrite Htag. assert (is_boolean value = false) as -> by by destruct value.
    unfold coalesce. by rewrite Hnull.
Qed.

End Reconciliation.


(** ** The ledger

    The ledger as the list of the own properties of [pendingUpdates]:
    what its operations keep of it. *)

Lemma none_with_key {A} (l : list (string * A)) K :
  K ∉ l.*1 -> filter (fun e => e.1 = K) l = [].
Proof.
  induction l as [|[k v] l IH]; intros Hnot; [done|].
  rewrite fmap_cons, not_elem_of_cons in Hnot. destruct Hnot as [Hne Hnot]. simpl in Hne.
  rewrite filter_cons. simpl. rewrite decide_False by done. by apply IH.
Qed.

Lemma at_most_one_with_key {A} (l : list (string * A)) K :
  NoDup l.*1 -> (length (filter (fun e => e.1 = K) l) <= 1)%nat.
Proof.
  induction l as [|[k v] l IH]; intros Hnd; simpl; [lia|].
  rewrite fmap_cons in Hnd. apply NoDup_cons in Hnd as [Hfresh Hnd].
  rewrite filter_cons. simpl. destruct (decide (k = K)) as [->|Hne]; [|by apply IH].
  rewrite none_with_key by done. simpl. lia.
Qed.

Lemma with_key_nil {A} (l : list (string * A)) K :
  filter (fun e => e.1 = K) l = [] -> K ∉ l.*1.
Proof.
  induction l as [|[k v] l IH]; [intros _; apply not_elem_of_nil|].
  rewrite filter_cons, fmap_cons. cbn [fst]. destruct (decide (k = K)) as [->|Hne]; [done|].
  intros H. apply not_elem_of_cons. split; [done | by apply IH].
Qed.

Lemma one_with_key_each {A} (l : list (string * A)) :
  (forall k, (length (filter (fun e => e.1 = k) l) <= 1)%nat) -> NoDup l.*1.
Proof.
  induction l as [|[k v] l IH]; intros Hone; [apply NoDup_nil_2|].
  rewrite fmap_cons. apply NoDup_cons. split.
  - cbn [fst]. apply with_key_nil, length_zero_iff_nil. specialize (Hone k).
    rewrite filter_cons in Hone. cbn [fst] in Hone.
    rewrite decide_True in Hone by done. cbn [length] in Hone. lia.
  - apply IH. intros k'. specialize (Hone k'). rewrite filter_cons in Hone.
    cbn [fst] in Hone. destruct (decide (k = k')); cbn [length] in Hone; lia.
Qed.

Lemma eqb_decide (k key : string) : String.eqb k key = bool_decide (k = key).
Proof.
  case_bool_decide as H; [by apply String.eqb_eq | by apply String.eqb_neq].
Qed.

Lemma put_keys o key value k :
  k ∈ (Entries.put o key value).*1 -> k = key \/ k ∈ o.*1.
Proof.
  induction o as [|[k0 v0] o IH]; cbn [Entries.put].
  - intros ->%list_elem_of_singleton. by left.
  - rewrite eqb_decide. case_bool_decide as Hk; rewrite !fmap_cons, !elem_of_cons; cbn [fst].
    + intros [->|?]; right; [by left | by right].
    + intros [->|[->|?]%IH]; [right; by left | by left | right; by right].
Qed.

Lemma put_NoDup o key value : NoDup o.*1 -> NoDup (Entries.put o key value).*1.
Proof.
  induction o as [|[k0 v0] o IH]; cbn [Entries.put]; intros Hnd.
  - apply NoDup_singleton.
  - rewrite fmap_cons in Hnd. apply NoDup_cons in Hnd as [Hfresh Hnd]. cbn [fst] in Hfresh.
    rewrite eqb_decide. case_bool_decide as Hk; rewrite fmap_cons; apply NoDup_cons; cbn [fst].
    + by split.
    + split; [|by apply IH]. by intros [->|?]%put_keys.
Qed.

Lemma put_entry o key value :
  NoDup o.*1 -> Entries.entries_for key (Entries.put o key value) = [(key, value)].
Proof.
  unfold Entries.entries_for. induction o as [|[k0 v0] o IH]; cbn [Entries.put]; intros Hnd.
  - rewrite filter_cons, filter_nil. cbn [fst]. by rewrite decide_True.
  - rewrite fmap_cons in Hnd. apply NoDup_cons in Hnd as [Hfresh Hnd]. cbn [fst] in Hfresh.
    rewrite eqb_decide. case_bool_decide as Hk; rewrite filter_cons; cbn [fst].
    + subst k0. rewrite decide_True by done. by rewrite none_with_key.
    + rewrite decide_False by done. by apply IH.
Qed.

Lemma delete_NoDup o key : NoDup o.*1 -> NoDup (Entries.delete o key).*1.
Proof.
  unfold Entries.delete. induction o as [|[k0 v0] o IH]; cbn [List.filter fst]; intros Hnd;
    [done|].
  rewrite fmap_cons in Hnd. apply NoDup_cons in Hnd as [Hfresh Hnd]. cbn [fst] in Hfresh.
  destruct (negb (String.eqb k0 key)); [|by apply IH].
  rewrite fmap_cons. apply NoDup_cons. split; [|by apply IH]. cbn [fst].
  intros (e & He & Hin)%list_elem_of_fmap. apply Hfresh.
  apply list_elem_of_fmap. exists e. split; [done|].
  apply list_elem_of_In, List.filter_In in Hin as [Hin _]. by apply list_elem_of_In.
Qed.

Lemma reconcile_NoDup o entry : NoDup o.*1 -> NoDup (Entries.reconcile o entry).*1.
Proof.
  destruct entry as [key value]. unfold Entries.reconcile. intros Hnd.
  destruct (Entries.hasOwnProperty o key); [|done].
  destruct (negb (strict_equals (Entries.get o key) value)); [done|].
  by apply delete_NoDup.
Qed.

Lemma act_NoDup o a : NoDup o.*1 -> NoDup (Entries.act o a).*1.
Proof.
  intros Hnd. destruct a as [key value| | | |settings]; cbn [Entries.act]; try done.
  - unfold Entries.applySetting, Entries.set.
    destruct (String.eqb key "__proto__"); [done | by apply put_NoDup].
  - unfold Entries.updateUIWithSettings. revert o Hnd.
    induction settings as [|entry settings IH]; intros o Hnd; [done|].
    cbn [foldl]. by apply IH, reconcile_NoDup.
Qed.

Lemma run_NoDup actions o : NoDup o.*1 -> NoDup (Entries.run actions o).*1.
Proof.
  unfold Entries.run. revert o. induction actions as [|a actions IH]; intros o Hnd; [done|].
  cbn [foldl]. by apply IH, act_NoDup.
Qed.

(** The list is the ledger of the theorems above: its operations are
    those of the map, read through [list_to_map]. *)

Lemma lookup_object (o : list (string * Value)) key :
  (list_to_map o : gmap string Value) !! key =
  if Entries.hasOwnProperty o key then Some (Entries.get o key) else None.
Proof.
  unfold Entries.hasOwnProperty, Entries.get.
  induction o as [|[k0 v0] o IH]; [done|].
  cbn [list_to_map foldr existsb find fst snd]. rewrite eqb_decide.
  case_bool_decide as Hk.
  - subst k0. by rewrite lookup_insert_eq.
  - by rewrite lookup_insert_ne.
Qed.

Lemma put_insert (o : list (string * Value)) key value :
  (list_to_map (Entries.put o key value) : gmap string Value) =
  <[key := value]> (list_to_map o).
Proof.
  induction o as [|[k0 v0] o IH]; [done|].
  cbn [Entries.put]. rewrite eqb_decide. case_bool_decide as Hk; cbn [list_to_map foldr fst snd].
  - subst k0. by rewrite insert_insert_eq.
  - rewrite IH. by apply insert_insert_ne.
Qed.

Lemma delete_delete (o : list (string * Value)) key :
  (list_to_map (Entries.delete o key) : gmap string Value) = delete key (list_to_map o).
Proof.
  unfold Entries.delete. induction o as [|[k0 v0] o IH].
  { cbn [List.filter list_to_map foldr]. by rewrite delete_empty. }
  cbn [List.filter fst]. rewrite eqb_decide. case_bool_decide as Hk; cbn [negb list_to_map foldr fst snd].
  - subst k0. by rewrite IH, delete_insert_eq.
  - by rewrite IH, delete_insert_ne.
Qed.

Lemma reconcile_reconcile host document (o : list (string * Value)) entry :
  (list_to_map (Entries.reconcile o entry) : gmap string Value) =
  (reconcile host document (list_to_map o, []) entry).1.
Proof.
  destruct entry as [key value]. unfold Entries.reconcile, reconcile.
  rewrite lookup_object. destruct (Entries.hasOwnProperty o key); [|done].
  destruct (negb (strict_equals (Entries.get o key) value)); [done|].
  apply delete_delete.
Qed.

Lemma updateUIWithSettings_entries host document (o : list (string * Value)) settings :
  (list_to_map (Entries.updateUIWithSettings o settings) : gmap string Value) =
  (updateUIWithSettings host document (list_to_map o) settings).1.
Proof.
  unfold Entries.updateUIWithSettings. revert o.
  induction settings as [|[key value] settings IH]; intros o; [done|].
  rewrite (updateUIWithSettings_cons host document). cbn zeta. cbn [foldl fst].
  by rewrite IH, (reconcile_reconcile host document).
Qed.

Lemma entries_are_the_ledger host document actions :
  Entries.ordinary actions ->
  (list_to_map (Entries.run actions []) : gmap string Value) =
  pendingUpdates (run host document actions initial).
Proof.
  unfold Entries.run, run.
  enough (forall o st,
            (list_to_map o : gmap string Value) = pendingUpdates st ->
            Entries.ordinary actions ->
            (list_to_map (foldl Entries.act o actions) : gmap string Value) =
            pendingUpdates (foldl (act host document) st actions)) as H by by apply H.
  induction actions as [|a actions IH]; intros o st Hst Hord; [done|].
  apply Forall_cons in Hord as [Ha Hord]. cbn [foldl]. apply IH; [|done].
  destruct a as [key value| | | |settings]; cbn [Entries.act act]; try done.
  - unfold Entries.applySetting, Entries.set.
    rewrite (proj2 (String.eqb_neq _ _) Ha). cbn [applySetting pendingUpdates].
    by rewrite put_insert, Hst.
  - rewrite (updateUIWithSettings_entries host document). rewrite Hst.
    unfold onUpdateSettings. by destruct (updateUIWithSettings _ _ _ _).
Qed.

(** C8. At most one Pending Entry per key, kept by every operation: if
    the ledger holds at most one entry for each key, it holds at most
    one for a key after any action of the script (a commit, which
    gives the key's entry the new value where it stands or creates it;
    a pass, which leaves an entry or deletes it; a bulk click or the
    page load, which leave the ledger alone), and so after any
    sequence of them; and a commit of [V] for [K] leaves exactly the
    entry [(K, V)] (for the key [__proto__], which no control has, it
    leaves the ledger as it is). *)
Theorem one_entry_per_key ledger a actions K V :
  (forall k, (length (Entries.entries_for k ledger) <= 1)%nat) ->
  (length (Entries.entries_for K (Entries.act ledger a)) <= 1)%nat /\
  (length (Entries.entries_for K (Entries.run actions ledger)) <= 1)%nat /\
  Entries.entries_for K (Entries.applySetting K V ledger) =
    if String.eqb K "__proto__" then Entries.entries_for K ledger else [(K, V)].
Proof.
  intros Hone%one_with_key_each. split; [|split].
  - by apply at_most_one_with_key, act_NoDup.
  - by apply at_most_one_with_key, run_NoDup.
  - unfold Entries.applySetting, Entries.set.
    destruct (String.eqb K "__proto__"); [done | by apply put_entry].
Qed.

(** ** The bulk operations *)

Import Extension.

Lemma foldl_requested_entries (l : list (string * Value)) p :
  foldl (fun p '(key, value) => with_requested (requested p ++ [(key, value)]) p) p l =
  with_requested (requested p ++ l) p.
Proof.
  revert p. induction l as [|[key value] l IH]; intros p; simpl.
  - rewrite app_nil_r. by destruct p.
  - rewrite IH. simpl. by rewrite <- app_assoc.
Qed.

Lemma foldl_requested_keys (l : list string) p :
  foldl (fun p key => with_requested (requested p ++ [(key, Undefined)]) p) p l =
  with_requested (requested p ++ map (fun key => (key, Undefined)) l) p.
Proof.
  revert p. induction l as [|key l IH]; intros p; simpl.
  - rewrite app_nil_r. by destruct p.
  - rewrite IH. simpl. by rewrite <- app_assoc.
Qed.

Lemma requested_applyRecommended p :
  requested (_applyRecommendedSettings p) = requested p ++ recommendedSettings.
Proof. unfold _applyRecommendedSettings. by rewrite foldl_requested_entries. Qed.

Lemma requested_resetSettings keys p :
  requested (_resetSettings keys p) = requested p ++ map (fun key => (key, Undefined)) keys.
Proof. unfold _resetSettings. by rewrite foldl_requested_keys. Qed.

(** C4, as the code has it. Neither bulk operation records a Pending
    Entry: [applyRecommended] and [resetAllSettings] leave the ledger as
    it was and post one command, on which the extension issues a store
    write for every pair of the preset table, or a clearing write for
    every key it was sent. *)
Theorem bulk_operations_leave_ledger st writable p :
  (pendingUpdates (applyRecommended st) = pendingUpdates st /\
   posted (applyRecommended st) = posted st ++ [ApplyRecommended] /\
   requested (onDidReceiveMessage writable ApplyRecommended p) =
     requested p ++ recommendedSettings) /\
  (pendingUpdates (resetAllSettings st) = pendingUpdates st /\
   posted (resetAllSettings st) = posted st ++ [ResetSettings allSettings] /\
   requested (onDidReceiveMessage writable (ResetSettings allSettings) p) =
     requested p ++ map (fun key => (key, Undefined)) allSettings).
Proof.
  repeat split.
  - apply requested_applyRecommended.
  - apply requested_resetSettings.
Qed.

(** ** The store under bulk writes *)

Section Store.

Variable writable : string -> bool.

Lemma update_global c key value k :
  globalValue (update writable c (key, value)) !! k =
  if writable key && bool_decide (key = k) then stored value else globalValue c !! k.
Proof.
  unfold update. destruct (writable key); simpl; [|done].
  case_bool_decide as Hk.
  - subst k. destruct value; simpl; by rewrite ?lookup_delete_eq, ?lookup_insert_eq.
  - destruct value; simpl; by rewrite ?lookup_delete_ne, ?lookup_insert_ne.
Qed.

Lemma update_layers c request :
  defaultValue (update writable c request) = defaultValue c /\
  workspaceValue (update writable c request) = workspaceValue c.
Proof. destruct request as [key value]. unfold update. by destruct (writable key), value. Qed.

Lemma carry_out_cons request requests c :
  carry_out writable (request :: requests) c =
  carry_out writable requests (update writable c request).
Proof. done. Qed.

Lemma carry_out_app r1 r2 c :
  carry_out writable (r1 ++ r2) c = carry_out writable r2 (carry_out writable r1 c).
Proof. apply foldl_app. Qed.

Lemma carry_out_layers requests c :
  defaultValue (carry_out writable requests c) = defaultValue c /\
  workspaceValue (carry_out writable requests c) = workspaceValue c.
Proof.
  revert c. induction requests as [|request requests IH]; intros c; [done|].
  rewrite carry_out_cons. destruct (IH (update writable c request)) as [-> ->].
  apply update_layers.
Qed.

(** The user's value of a key once the requests are carried out: what
    the last accepted write left, or what it was. *)
Lemma carry_out_global requests c k :
  globalValue (carry_out writable requests c) !! k =
  match last_write writable requests k with
  | Some o => o
  | None => globalValue c !! k
  end.
Proof.
  revert c. induction requests as [|[key value] requests IH]; intros c; [done|].
  rewrite carry_out_cons, IH. cbn [last_write].
  destruct (last_write writable requests k); [done|]. rewrite update_global.
  by destruct (writable key && bool_decide (key = k)).
Qed.

Lemma configuration_eq c c' :
  defaultValue c = defaultValue c' -> globalValue c = globalValue c' ->
  workspaceValue c = workspaceValue c' -> c = c'.
Proof. destruct c, c'; simpl; by intros -> -> ->. Qed.

Lemma carry_out_idempotent requests c :
  carry_out writable requests (carry_out writable requests c) = carry_out writable requests c.
Proof.
  apply configuration_eq.
  - by rewrite !(proj1 (carry_out_layers _ _)).
  - apply map_eq. intros k. rewrite !carry_out_global.
    by destruct (last_write writable requests k).
  - by rewrite !(proj2 (carry_out_layers _ _)).
Qed.

(** C6. The bulk operations are idempotent on the store: the writes of
    two Apply Preset in a row leave the store as the writes of one do,
    and so do the writes of two Reset in a row. *)
Theorem bulk_apply_idempotent p c keys :
  carry_out writable (requested (_applyRecommendedSettings (_applyRecommendedSettings p))) c =
  carry_out writable (requested (_applyRecommendedSettings p)) c /\
  carry_out writable (requested (_resetSettings keys (_resetSettings keys p))) c =
  carry_out writable (requested (_resetSettings keys p)) c.
Proof.
  rewrite !requested_applyRecommended, !requested_resetSettings, !carry_out_app.
  by rewrite !carry_out_idempotent.
Qed.

End Store.

(** ** The debounced notifier *)

Lemma due_idle t p : timers p = ∅ -> due t p = [].
Proof. unfold due. intros ->. by rewrite map_to_list_empty. Qed.

Lemma due_single t p handle d :
  timers p = {[handle := d]} ->
  due t p = if decide (d <= t) then [(handle, d)] else [].
Proof.
  unfold due. intros ->. rewrite map_to_list_singleton.
  rewrite filter_cons, filter_nil. simpl. by destruct (decide (d <= t)).
Qed.

Lemma advance_idle t p :
  timers p = ∅ -> advance t p = with_now (Z.max (now p) t) p.
Proof. intros H. unfold advance. by rewrite due_idle. Qed.

(** Idle to pending: the first relevant change arms the timer. *)
Lemma changed_idle p t c e :
  timers p = ∅ -> now p <= t -> relevant e = true ->
  armed (changed p (t, c, e)) t t c (sent p).
Proof.
  intros Hidle Hnow Hrel. unfold changed. rewrite advance_idle by done.
  unfold onDidChangeConfiguration. rewrite Hrel.
  exists (next_handle p). simpl.
  destruct (_configUpdateTimer p); simpl; rewrite Hidle, ?delete_empty, insert_empty;
    rewrite Z.max_r by lia; repeat split; try done; lia.
Qed.



(** Pending to idle: the timer fires once the quiet period is over, and
    sends the store as it reads then. *)
Lemma advance_armed p t n c s T :
  armed p t n c s -> n <= T ->
  sent (advance T p) =
  if bool_decide (T < t + 300) then s else s ++ [(t + 300, currentSettings c)].
Proof.
  intros (handle & Htimers & Hhandle & Hsent & Hconfig & Hnow & Hwait) HT.
  unfold advance. rewrite (due_single _ _ _ _ Htimers).
  case_bool_decide as Hq.
  - rewrite decide_False by lia. done.
  - rewrite decide_True by lia. simpl. rewrite Hsent, Hconfig, Hnow.
    by rewrite Z.max_r by lia.
Qed.


(** ** The label of a slider *)


(** What the formatting of numbers can print has no "px" in it. *)

Ltac unitless_literal := unfold unitless; simpl; by repeat constructor.

Lemma unitless_append s t : unitless s -> unitless t -> unitless (s +:+ t).
Proof.
  unfold unitless. intros Hs Ht. induction s as [|c s IH]; simpl; [done|].
  apply Forall_cons in Hs as [Hc Hs]. apply Forall_cons. split; [done | by apply IH].
Qed.

Lemma unitless_substring i n s : unitless s -> unitless (String.substring i n s).
Proof.
  unfold unitless. revert i n. induction s as [|c s IH]; intros i n Hs.
  - destruct i, n; by constructor.
  - apply Forall_cons in Hs as [Hc Hs]. destruct i as [|i]; simpl.
    + destruct n as [|n]; simpl; [by constructor|]. apply Forall_cons. split; [done | by apply IH].
    + by apply IH.
Qed.

Lemma unitless_zeros n : unitless (zeros n).
Proof.
  induction n as [|n IH]; simpl; [by constructor|]. apply Forall_cons. split; [done | apply IH].
Qed.

Lemma unitless_uint d : unitless (NilEmpty.string_of_uint d).
Proof. induction d; simpl; [by constructor | apply Forall_cons; split; done ..]. Qed.

Lemma unitless_digits n : unitless (digits_of_Z n).
Proof. destruct n; simpl; [unitless_literal | apply unitless_uint | unitless_literal]. Qed.

Lemma unitless_includes s : unitless s -> includes s "px" = false.
Proof.
  unfold unitless. induction s as [|c s IH]; intros Hs; [done|].
  apply Forall_cons in Hs as [Hc Hs]. cbn [includes]. rewrite (IH Hs), orb_false_r.
  change (String.prefix "px" (String c s))
    with (if ascii_dec "p" c then String.prefix "x" s else false).
  by destruct (ascii_dec "p" c) as [<-|Hne].
Qed.

Lemma unitless_format_decimal s n k : unitless (format_decimal s n k).
Proof.
  unfold format_decimal, substring_from.
  repeat case_match;
    repeat (first [ apply unitless_append | apply unitless_substring | apply unitless_digits
                  | apply unitless_zeros | unitless_literal ]).
Qed.

Lemma unitless_Number_toString x : unitless (Number_toString x).
Proof.
  unfold Number_toString. destruct (Prim2SF x) as [| [] | |s m e]; try unitless_literal.
  destruct (shortest_decimal m e) as [[d n] k].
  apply unitless_append; [destruct s; unitless_literal | apply unitless_format_decimal].
Qed.

Lemma unitless_toFixed x f : unitless (toFixed x f).
Proof.
  unfold toFixed, substring_from.
  pose proof (unitless_Number_toString x) as Hx.
  destruct (Prim2SF x) as [| [] | |s m e]; try done.
  - destruct f; [unitless_literal|].
    apply unitless_append; [unitless_literal | apply unitless_zeros].
  - destruct (Qle_bool _ _); [done|].
    apply unitless_append; [destruct s; unitless_literal|].
    destruct f.
    + apply unitless_append; [apply unitless_zeros | apply unitless_digits].
    + repeat (first [ apply unitless_append | apply unitless_substring | apply unitless_digits
                    | apply unitless_zeros | unitless_literal ]).
Qed.


(** ** The built-ins on known values *)

Example Number_toString_known :
  map (fun s => Number_toString (parseFloat s))
      ["16"; "1.6"; "0.1"; "-2.50"; "1e21"; "123456789012345680000"; "0.000001"; "1e-7";
       "5e-324"; "0.30000000000000004"; "9007199254740993"; "abc"; "-0"] =
      ["16"; "1.6"; "0.1"; "-2.5"; "1e+21"; "123456789012345680000"; "0.000001"; "1e-7";
       "5e-324"; "0.30000000000000004"; "9007199254740992"; "NaN"; "0"].
Proof. by vm_compute. Qed.

Example toFixed_known :
  map (fun s => toFixed (parseFloat s) 1)
      ["0"; "1.6"; "8"; "20"; "1.25"; "4.35"; "0.05"; "-0.04"; "1e21"; "x"] =
      ["0.0"; "1.6"; "8.0"; "20.0"; "1.3"; "4.3"; "0.1"; "-0.0"; "1e+21"; "NaN"].
Proof. by vm_compute. Qed.

Example parseFloat_known :
  map (fun s => PrimFloat.eqb (parseFloat s.1) s.2)
      [("14", 14%float); (" 3.5px", 3.5%float); (".5", 0.5%float); ("1e3", 1000%float);
       ("1e", 1%float); ("-Infinity", neg_infinity); ("0x10", 0%float)] =
      [true; true; true; true; true; true; true].
Proof. by vm_compute. Qed.

(** NaN is the one value a snapshot can never echo: it is not [===] to
    itself. *)
Example nan_is_not_plain :
  strict_equals (Num nan) (Num nan) = false /\ plain_number nan = false /\
  strict_equals (Num 0) (Num (-0)) = true /\ plain_number (-0) = false.
Proof. by vm_compute. Qed.

(** ** Instances *)

Ltac distinct := apply strict_equals_distinct; by vm_compute.

Ltac member := apply list_elem_of_In; vm_compute; tauto.

Ltac distinct_keys := apply (bool_decide_unpack _); by vm_compute.


(** Against C10: an absent store value for a scrollbar size, a size-kind
    slider that does not go below 10, is labelled "10px", not "Auto". *)
Lemma absent_scrollbar_size_is_not_Auto :
  let K := "editor.scrollbar.verticalScrollbarSize" in
  let ops := pushes_to K (updateUIWithSettings Page.page_setter panel ∅ [(K, Undefined)]).2 in
  ops = [SetValue K (Num 0); SetTextContent "editor.scrollbar.verticalScrollbarSize-value" "10px"] /\
  ops <> [SetValue K (Num 0); SetTextContent "editor.scrollbar.verticalScrollbarSize-value" "Auto"].
Proof. split; by vm_compute. Qed.

(** Against C4: after Apply Preset, and after Reset, the ledger holds no
    entry for editor.fontSize, a key that both operations write. *)
Lemma bulk_operations_record_nothing :
  (recommendedSettings !! 1%nat = Some ("editor.fontSize", Num 16) /\
   pendingUpdates (applyRecommended initial) !! "editor.fontSize" = None) /\
  (allSettings !! 3%nat = Some "editor.fontSize" /\
   pendingUpdates (resetAllSettings initial) !! "editor.fontSize" = None).
Proof. by vm_compute. Qed.

Lemma staleness_suppression_witness :
  let K := "editor.suggestFontSize" in
  let pending : gmap string Value := {[K := Num 16]} in
  let stale :=
    updateUIWithSettings plain_setter panel pending [("editor.fontSize", Num 14); (K, Num 14)] in
  let echo :=
    updateUIWithSettings plain_setter panel pending [("editor.fontSize", Num 14); (K, Num 16)] in
  (stale.1 !! K = Some (Num 16) /\ pushes_to K stale.2 = []) /\
  (echo.1 !! K = None /\
   pushes_to K echo.2 =
     [SetValue K (Num 16); SetTextContent "editor.suggestFontSize-value" "16px"]).
Proof.
  intros K pending stale echo. split.
  - apply (staleness_suppression plain_setter panel pending
             [("editor.fontSize", Num 14); (K, Num 14)] K (Num 16) (Num 14));
      [distinct_keys | by vm_compute | member | by vm_compute | by vm_compute | distinct].
  - assert (updateControl plain_setter panel K (Num 16) =
              [SetValue K (Num 16); SetTextContent "editor.suggestFontSize-value" "16px"])
      as <- by by vm_compute.
    apply (staleness_suppression plain_setter panel pending
             [("editor.fontSize", Num 14); (K, Num 16)] K (Num 16) (Num 16));
      [distinct_keys | by vm_compute | member | by vm_compute | by vm_compute | done].
Defined.

Lemma last_intent_wins_witness :
  let K := "editor.scrollbar.verticalScrollbarSize" in
  let twice := applySetting K (Num 18) (applySetting K (Num 16) initial) in
  let late := updateUIWithSettings plain_setter panel (pendingUpdates twice) [(K, Num 16)] in
  let echo := updateUIWithSettings plain_setter panel (pendingUpdates twice) [(K, Num 18)] in
  pendingUpdates twice = pendingUpdates (applySetting K (Num 18) initial) /\
  (late.1 !! K = Some (Num 18) /\ pushes_to K late.2 = []) /\
  (echo.1 !! K = None /\
   pushes_to K echo.2 =
     [SetValue K (Num 18);
      SetTextContent "editor.scrollbar.verticalScrollbarSize-value" "18px"]).
Proof.
  intros K twice late echo.
  assert (plain (Num 16)) as H16 by by vm_compute.
  assert (plain (Num 18)) as H18 by by vm_compute.
  assert (Num 16 <> Num 18) as Hne by distinct.
  split; [|split].
  - apply (last_intent_wins plain_setter panel initial [] K (Num 16) (Num 18));
      [distinct_keys | done | done | done].
  - apply (last_intent_wins plain_setter panel initial [(K, Num 16)] K (Num 16) (Num 18));
      [distinct_keys | done | done | done | member].
  - assert (updateControl plain_setter panel K (Num 18) =
              [SetValue K (Num 18);
               SetTextContent "editor.scrollbar.verticalScrollbarSize-value" "18px"])
      as <- by by vm_compute.
    apply (last_intent_wins plain_setter panel initial [(K, Num 18)] K (Num 16) (Num 18));
      [distinct_keys | done | done | done | member].
Defined.

Lemma unmanaged_key_skipped_witness :
  let settings := [("files.autoSave", Str "afterDelay"); ("editor.fontSize", Num 16)] in
  let after := updateUIWithSettings plain_setter panel ∅ settings in
  pushes_to "files.autoSave" after.2 = [] /\
  after.2 = (updateUIWithSettings plain_setter panel ∅ [("editor.fontSize", Num 16)]).2 /\
  posted (onUpdateSettings plain_setter panel settings initial) = [].
Proof.
  intros settings after.
  apply (unmanaged_key_skipped plain_setter panel ∅ settings "files.autoSave" initial).
  by vm_compute.
Defined.

Lemma absent_value_pushed_witness :
  let settings :=
    [("editor.suggestFontSize", Undefined); ("editor.scrollbar.verticalScrollbarSize", Null);
     ("editor.suggestLineHeight", Undefined); ("editor.lineHeight", Null);
     ("editor.wordWrap", Undefined)] in
  let ops := (updateUIWithSettings Page.page_setter panel ∅ settings).2 in
  pushes_to "editor.suggestFontSize" ops =
    [SetValue "editor.suggestFontSize" (Num 0);
     SetTextContent "editor.suggestFontSize-value" "Auto"] /\
  pushes_to "editor.scrollbar.verticalScrollbarSize" ops =
    [SetValue "editor.scrollbar.verticalScrollbarSize" (Num 0);
     SetTextContent "editor.scrollbar.verticalScrollbarSize-value" "10px"] /\
  pushes_to "editor.suggestLineHeight" ops =
    [SetValue "editor.suggestLineHeight" (Num 0);
     SetTextContent "editor.suggestLineHeight-value" "Auto"] /\
  pushes_to "editor.lineHeight" ops = [SetValue "editor.lineHeight" (Str "")] /\
  pushes_to "editor.wordWrap" ops = [SetValue "editor.wordWrap" (Str "")].
Proof.
  intros settings ops.
  assert (NoDup settings.*1) as Hnd by distinct_keys.
  split; [|split; [|split; [|split]]].
  - destruct (absent_value_pushed Page.page_setter panel ∅ settings
                "editor.suggestFontSize" Undefined (range "editor.suggestFontSize" "0")
                Hnd ltac:(member) eq_refl eq_refl (or_introl eq_refl)) as (Hrange & _ & _).
    destruct (Hrange eq_refl) as [_ Hlabel].
    destruct (Hlabel ltac:(vm_compute; by eexists)) as [Hsize _].
    apply (Hsize eq_refl).
  - destruct (absent_value_pushed Page.page_setter panel ∅ settings
                "editor.scrollbar.verticalScrollbarSize" Null
                (range "editor.scrollbar.verticalScrollbarSize" "14")
                Hnd ltac:(member) eq_refl eq_refl (or_introl eq_refl)) as (Hrange & _ & _).
    destruct (Hrange eq_refl) as [_ Hlabel].
    destruct (Hlabel ltac:(vm_compute; by eexists)) as [Hsize _].
    apply (Hsize eq_refl).
  - destruct (absent_value_pushed Page.page_setter panel ∅ settings
                "editor.suggestLineHeight" Undefined (range "editor.suggestLineHeight" "0")
                Hnd ltac:(member) eq_refl eq_refl (or_introl eq_refl)) as (Hrange & _ & _).
    destruct (Hrange eq_refl) as [_ Hlabel].
    destruct (Hlabel ltac:(vm_compute; by eexists)) as [_ Hline].
    apply (Hline eq_refl eq_refl).
  - destruct (absent_value_pushed Page.page_setter panel ∅ settings
                "editor.lineHeight" Null (number "editor.lineHeight" "0")
                Hnd ltac:(member) eq_refl eq_refl (or_introl eq_refl)) as (_ & Hnumber & _).
    by apply Hnumber.
  - destruct (absent_value_pushed Page.page_setter panel ∅ settings
                "editor.wordWrap" Undefined (select "editor.wordWrap" "off")
                Hnd ltac:(member) eq_refl eq_refl (or_introl eq_refl)) as (_ & _ & Hselect).
    by apply Hselect.
Defined.

Lemma one_entry_per_key_witness :
  let K := "editor.fontSize" in
  let ledger := [("editor.wordWrap", Str "on"); (K, Num 16)] in
  let pass := UpdateSettings [("editor.wordWrap", Str "on"); (K, Num 14)] in
  Entries.entries_for K (Entries.act ledger pass) = [(K, Num 16)] /\
  (length (Entries.entries_for K (Entries.act ledger pass)) <= 1)%nat /\
  (length (Entries.entries_for K
             (Entries.run [Commit K (Num 18); pass; ClickReset; Commit K (Num 20)] ledger))
   <= 1)%nat /\
  Entries.entries_for K (Entries.applySetting K (Num 18) ledger) = [(K, Num 18)].
Proof.
  intros K ledger pass. split; [by vm_compute|].
  apply (one_entry_per_key ledger pass
           [Commit K (Num 18); pass; ClickReset; Commit K (Num 20)] K (Num 18)).
  intros k. apply at_most_one_with_key. distinct_keys.
Defined.


(** * Further properties *)

Import Controls Ledger Loop Activation.

(** ** More on the reconciliation pass *)

Section Passes.

Variable host : ValueSetter.
Variable document : Document.

(** An entry that is in the ledger after a pass was in it before. *)
Lemma updateUIWithSettings_survivor pending settings K p :
  (updateUIWithSettings host document pending settings).1 !! K = Some p ->
  pending !! K = Some p.
Proof.
  revert pending. induction settings as [|[key value] settings IH]; intros pending; [done|].
  rewrite updateUIWithSettings_cons. cbn zeta. simpl fst. intros H%IH. revert H.
  unfold reconcile. destruct (pending !! key) as [q|] eqn:Hq; [destruct (negb _)|]; simpl; try done.
  destruct (decide (key = K)) as [->|Hne]; [by rewrite lookup_delete_eq|].
  by rewrite lookup_delete_ne.
Qed.

(** The entries a pass leaves are stale against the snapshot. *)
Lemma updateUIWithSettings_leaves_stale pending settings k v p :
  (k, v) ∈ settings ->
  (updateUIWithSettings host document pending settings).1 !! k = Some p ->
  strict_equals p v = false.
Proof.
  revert pending. induction settings as [|[key value] settings IH]; intros pending Hin.
  - by apply elem_of_nil in Hin.
  - rewrite updateUIWithSettings_cons. cbn zeta. simpl fst.
    apply elem_of_cons in Hin as [[= <- <-]|Hin]; [|by apply IH].
    intros H%updateUIWithSettings_survivor. revert H. unfold reconcile.
    destruct (pending !! k) as [q|] eqn:Hq; [destruct (strict_equals q v) eqn:E|]; simpl.
    + by rewrite lookup_delete_eq.
    + rewrite Hq. by intros [= <-].
    + by rewrite Hq.
Qed.

(** A pass over a snapshot against which every entry is stale leaves the
    ledger as it is. *)
Lemma updateUIWithSettings_all_stale pending settings :
  (forall k v p, (k, v) ∈ settings -> pending !! k = Some p -> strict_equals p v = false) ->
  (updateUIWithSettings host document pending settings).1 = pending.
Proof.
  induction settings as [|[key value] settings IH]; intros Hstale; [done|].
  rewrite updateUIWithSettings_cons.
  set (st := reconcile host document (pending, []) (key, value)).
  assert (st.1 = pending) as Hst.
  { subst st. unfold reconcile. destruct (pending !! key) as [q|] eqn:Hq; [|done].
    rewrite (Hstale key value q); [done | by left | done]. }
  cbn zeta. simpl fst. rewrite Hst.
  apply IH. intros k v p Hin. apply Hstale. by right.
Qed.

(** X1. A pass over the same snapshot a second time leaves the ledger
    as the first pass left it: what a pass leaves is stale against the
    snapshot it was made over. *)
Theorem second_pass_keeps_ledger pending settings :
  let once := updateUIWithSettings host document pending settings in
  (updateUIWithSettings host document once.1 settings).1 = once.1.
Proof.
  intros once. apply updateUIWithSettings_all_stale. intros k v p Hin.
  by apply updateUIWithSettings_leaves_stale.
Qed.

(** X2. Over a snapshot with distinct keys a pass decides each entry on
    its own, against the ledger as it was when the pass began: the
    entries it resolves leave the ledger, and every entry that is not
    stale is pushed to its control, in the order of the snapshot. *)
Theorem pass_decides_each_entry pending settings :
  NoDup settings.*1 ->
  updateUIWithSettings host document pending settings =
  (foldl (fun m e => if resolved pending e then delete e.1 m else m) pending settings,
   flat_map (fun e => if stale pending e then [] else updateControl host document e.1 e.2)
            settings).
Proof.
  intros Hnd.
  (* the ledger the pass has reached agrees with the one it began with
     on the keys still to come *)
  enough (forall ledger,
            (forall k, k ∈ settings.*1 -> ledger !! k = pending !! k) ->
            updateUIWithSettings host document ledger settings =
            (foldl (fun m e => if resolved pending e then delete e.1 m else m) ledger settings,
             flat_map (fun e => if stale pending e then []
                                else updateControl host document e.1 e.2) settings))
    as Hfrom by by apply Hfrom.
  induction settings as [|[key value] settings IH]; intros ledger Hagree; [done|].
  rewrite fmap_cons in Hnd. apply NoDup_cons in Hnd as [Hfresh Hnd]. simpl in Hfresh.
  rewrite updateUIWithSettings_cons.
  set (st := reconcile host document (ledger, []) (key, value)).
  assert (st = (if resolved pending (key, value) then delete key ledger else ledger,
                if stale pending (key, value) then []
                else updateControl host document key value)) as Hst.
  { subst st. unfold reconcile, resolved, stale. simpl.
    rewrite (Hagree key) by (rewrite fmap_cons; by left).
    destruct (pending !! key) as [p|]; [by destruct (strict_equals p value)|done]. }
  cbn zeta. rewrite Hst. simpl fst; simpl snd. rewrite IH; [done | done |].
  intros k Hk. destruct (resolved pending (key, value)).
  - rewrite lookup_delete_ne; [|by intros ->].
    apply Hagree. rewrite fmap_cons. by right.
  - apply Hagree. rewrite fmap_cons. by right.
Qed.

(** A pass in which every value the snapshot has for [K] is stale. *)
Lemma updateUIWithSettings_stale_key pending settings K V :
  pending !! K = Some V ->
  (forall v, (K, v) ∈ settings -> strict_equals V v = false) ->
  (updateUIWithSettings host document pending settings).1 !! K = Some V /\
  pushes_to K (updateUIWithSettings host document pending settings).2 = [].
Proof.
  revert pending. induction settings as [|[key value] settings IH]; intros pending HK Hstale.
  - done.
  - rewrite updateUIWithSettings_cons.
    set (st := reconcile host document (pending, []) (key, value)).
    assert (st.1 !! K = Some V /\ pushes_to K st.2 = []) as [Hfst Hsnd].
    { subst st. destruct (decide (key = K)) as [->|Hne].
      - unfold reconcile. rewrite HK, (Hstale value) by by left. done.
      - destruct (reconcile_other host document pending key value K Hne) as [-> ->].
        done. }
    destruct (IH st.1 Hfst) as [IH1 IH2].
    { intros v Hin. apply Hstale. by right. }
    cbn zeta. simpl. by rewrite IH1, pushes_to_app, Hsnd, IH2.
Qed.

Lemma run_cons a actions st :
  run host document (a :: actions) st = run host document actions (act host document st a).
Proof. done. Qed.

(** X3. A Pending Entry outlasts any number of passes whose snapshots
    hold other values for its key: through all of them the entry stays
    as it is, nothing is assigned to its control, and nothing is posted
    to the extension. *)
Theorem stale_entry_outlasts_passes snapshots st K V :
  pendingUpdates st !! K = Some V ->
  Forall (fun settings => forall v, (K, v) ∈ settings -> strict_equals V v = false) snapshots ->
  let st' := run host document (UpdateSettings <$> snapshots) st in
  pendingUpdates st' !! K = Some V /\
  pushes_to K (assignments st') = pushes_to K (assignments st) /\
  posted st' = posted st.
Proof.
  revert st. induction snapshots as [|settings snapshots IH]; intros st HK Hall; [done|].
  apply Forall_cons in Hall as [Hstale Hall].
  destruct (updateUIWithSettings_stale_key (pendingUpdates st) settings K V HK Hstale)
    as [Hfst Hsnd].
  rewrite fmap_cons. cbn zeta. rewrite run_cons.
  change (act host document st (UpdateSettings settings))
    with (onUpdateSettings host document settings st).
  assert (pendingUpdates (onUpdateSettings host document settings st) !! K = Some V /\
          pushes_to K (assignments (onUpdateSettings host document settings st)) =
            pushes_to K (assignments st) /\
          posted (onUpdateSettings host document settings st) = posted st) as (H1 & H2 & H3).
  { unfold onUpdateSettings.
    destruct (updateUIWithSettings host document (pendingUpdates st) settings) as [l o].
    simpl in *. by rewrite pushes_to_app, Hsnd, app_nil_r. }
  destruct (IH _ H1 Hall) as (IH1 & IH2 & IH3). cbn zeta in IH1, IH2, IH3.
  by rewrite IH1, IH2, IH3.
Qed.

(** X4. Through a whole session, whatever is committed, clicked and
    received, the ledger holds nothing for a key but the value of the
    last commit to it. *)
Theorem ledger_holds_last_commit actions K V :
  pendingUpdates (run host document actions initial) !! K = Some V ->
  last_commit K actions None = Some V.
Proof.
  enough (forall st o,
            (forall V, pendingUpdates st !! K = Some V -> o = Some V) ->
            forall V, pendingUpdates (run host document actions st) !! K = Some V ->
                      last_commit K actions o = Some V) as H.
  { apply (H initial None). intros V'.
    change (pendingUpdates initial) with (∅ : gmap string Value). by rewrite lookup_empty. }
  clear V. induction actions as [|a actions IH]; intros st o Hst V; [apply Hst|].
  rewrite run_cons. apply IH. intros V'.
  destruct a as [key value| | | |settings]; cbn [act]; try apply Hst.
  - cbn [applySetting pendingUpdates]. case_bool_decide as Hk.
    + subst key. rewrite lookup_insert_eq. by intros [= <-].
    + rewrite lookup_insert_ne by done. apply Hst.
  - unfold onUpdateSettings.
    destruct (updateUIWithSettings host document (pendingUpdates st) settings) as [l ops] eqn:E.
    cbn [pendingUpdates]. intros Hl. apply Hst.
    apply (updateUIWithSettings_survivor _ settings). by rewrite E.
Qed.

Lemma getElementById_self i el :
  getElementById document i = Some el -> getElementById document (el_id el) = Some el.
Proof. intros H. by rewrite (getElementById_id _ _ _ H). Qed.

Lemma updateControl_targets key value op :
  op ∈ updateControl host document key value ->
  is_Some (getElementById document (target op)).
Proof.
  unfold updateControl.
  destruct (getElementById document key) as [element|] eqn:Hel; [|by intros ?%elem_of_nil].
  apply getElementById_self in Hel.
  destruct (bool_decide (el_type element = Some "range")).
  { intros [->|Hop]%elem_of_cons; [by eexists|].
    unfold updateRangeValue in Hop. simpl in Hop.
    destruct (getElementById document (el_id element +:+ "-value")) as [valueSpan|] eqn:Hspan;
      [|by apply elem_of_nil in Hop].
    apply list_elem_of_singleton in Hop as ->. simpl.
    apply getElementById_self in Hspan. by eexists. }
  destruct (bool_decide (el_type element = Some "number")).
  { intros ->%list_elem_of_singleton. by eexists. }
  destruct (String.eqb (el_tagName element) "SELECT" && is_boolean value).
  { intros ->%list_elem_of_singleton. by eexists. }
  destruct (String.eqb (el_tagName element) "SELECT");
    intros ->%list_elem_of_singleton; by eexists.
Qed.

(** X5. Everything a pass assigns goes to an element of the page, and
    belongs to the control of a key of the snapshot. *)
Theorem pass_assigns_on_the_page pending settings :
  Forall (fun op =>
            is_Some (getElementById document (target op)) /\
            exists key value, (key, value) ∈ settings /\ concerns key op = true)
         (updateUIWithSettings host document pending settings).2.
Proof.
  apply Forall_forall. intros op (key & value & Hin & Hop)%updateUIWithSettings_origin. split.
  - by eapply updateControl_targets.
  - exists key, value. split; [done|]. by eapply updateControl_concerns.
Qed.

End Passes.

(** ** The labels of the sliders *)

Lemma prefix_refl t : String.prefix t t = true.
Proof.
  induction t as [|c t IH]; [done|]. cbn [String.prefix].
  by destruct (ascii_dec c c).
Qed.

Lemma includes_prefix s t : String.prefix t s = true -> includes s t = true.
Proof. intros H. destruct s; cbn [includes]; by rewrite H. Qed.

Lemma includes_suffix s t : includes (s +:+ t) t = true.
Proof.
  induction s as [|c s IH].
  - apply includes_prefix, prefix_refl.
  - change (String c s +:+ t) with (String c (s +:+ t)). cbn [includes].
    rewrite IH. apply orb_true_r.
Qed.

(** The label written next to a slider, and whether it reads in pixels. *)
Lemma updateRangeValue_px document element valueSpan :
  let i := el_id element in
  let value := parseFloat (el_value element) in
  getElementById document (i +:+ "-value") = Some valueSpan ->
  exists text,
    updateRangeValue document element = [SetTextContent (i +:+ "-value") text] /\
    includes text "px" =
      if includes i "FontSize" || includes i "ScrollbarSize" then negb (PrimFloat.eqb value 0)
      else if includes i "LineHeight" then false
      else includes i "LetterSpacing".
Proof.
  intros i value Hspan. unfold updateRangeValue. fold i. fold value. rewrite Hspan.
  apply getElementById_id in Hspan as ->.
  eexists. split; [done|].
  destruct (includes i "FontSize" || includes i "ScrollbarSize").
  { destruct (PrimFloat.eqb value 0); [done|]. apply includes_suffix. }
  destruct (includes i "LineHeight").
  { destruct (PrimFloat.eqb value 0); [done|].
    apply unitless_includes, unitless_toFixed. }
  destruct (includes i "LetterSpacing"); [apply includes_suffix|].
  destruct (String.eqb i "window.zoomLevel").
  - apply unitless_includes, unitless_toFixed.
  - apply unitless_includes, unitless_Number_toString.
Qed.

(** X6. The label of a slider: nothing is written when the page has no
    label for it; otherwise one text is, and it reads in pixels exactly
    when the slider's id contains [FontSize] or [ScrollbarSize] and the
    value is not 0, or contains [LetterSpacing] and none of these nor
    [LineHeight]; a line height never does. *)
Theorem label_carries_px document element :
  let i := el_id element in
  let value := parseFloat (el_value element) in
  match getElementById document (i +:+ "-value") with
  | None => updateRangeValue document element = []
  | Some _ =>
      exists text,
        updateRangeValue document element = [SetTextContent (i +:+ "-value") text] /\
        includes text "px" =
          if includes i "FontSize" || includes i "ScrollbarSize" then negb (PrimFloat.eqb value 0)
          else if includes i "LineHeight" then false
          else includes i "LetterSpacing"
  end.
Proof.
  intros i value.
  destruct (getElementById document (i +:+ "-value")) as [valueSpan|] eqn:Hspan.
  - by apply (updateRangeValue_px document element valueSpan).
  - unfold updateRangeValue. fold i. by rewrite Hspan.
Qed.

(** X7. On the panel's own page the case of the ids decides: only the
    two scrollbar sizes and the suggest font size are labelled in
    pixels (when not 0); the editor and terminal font sizes, the letter
    spacing and the terminal line height are not. *)
Theorem panel_px_labels raw :
  Forall (fun i =>
    exists text,
      updateRangeValue panel (range i raw) = [SetTextContent (i +:+ "-value") text] /\
      includes text "px" =
        bool_decide (i ∈ px_sliders) && negb (PrimFloat.eqb (parseFloat raw) 0))
    sliders.
Proof.
  assert (forall i, i ∈ sliders ->
            is_Some (getElementById panel (i +:+ "-value")) /\
            (includes i "FontSize" || includes i "ScrollbarSize") = bool_decide (i ∈ px_sliders) /\
            (includes i "FontSize" || includes i "ScrollbarSize" || includes i "LineHeight"
             || negb (includes i "LetterSpacing")) = true) as Hids.
  { apply Forall_forall. vm_compute. repeat constructor; by eexists. }
  apply Forall_forall. intros i Hi. destruct (Hids i Hi) as ([span Hspan] & Hpx & Hrest).
  destruct (updateRangeValue_px panel (range i raw) span Hspan) as (text & Hops & Htext).
  cbn zeta in Hops, Htext.
  change (el_id (range i raw)) with i in Hops, Htext.
  change (el_value (range i raw)) with raw in Htext.
  exists text. split; [done|].
  rewrite Htext, <- Hpx.
  destruct (includes i "FontSize" || includes i "ScrollbarSize"); [done|].
  destruct (includes i "LineHeight"); [done|]. simpl in Hrest.
  by destruct (includes i "LetterSpacing").
Qed.

(** ** The change handlers *)

Lemma truthy_number_plain x : ToBoolean (Num x) = true -> plain_number x = true.
Proof.
  simpl. unfold is_nan, plain_number. rewrite !FloatAxioms.eqb_spec.
  change (Prim2SF 0) with (S754_zero false).
  destruct (Prim2SF x) as [[]| [] | |[] m e]; try done.
Qed.

(** X8. Whatever the line-height input reads, its handler commits a
    number that compares equal to itself: [parseFloat(this.value) || 0]
    turns NaN into 0, so the entry it records can be resolved. *)
Theorem guarded_number_is_plain raw st :
  let key := "editor.lineHeight" in
  exists v, pendingUpdates (onchange key raw st) !! key = Some v /\ plain v /\
            v = or_else (Num (parseFloat raw)) (Num 0).
Proof.
  intros key. exists (or_else (Num (parseFloat raw)) (Num 0)).
  split; [|split; [|done]].
  - change (onchange key raw st) with (applySetting key (coerce AsFloatOrZero raw) st).
    simpl. by rewrite lookup_insert_eq.
  - unfold or_else. destruct (ToBoolean (Num (parseFloat raw))) eqn:E.
    + by apply truthy_number_plain.
    + done.
Qed.

Lemma handler_cases key c :
  handler key = Some c -> (key, c) ∈ handlers.
Proof.
  unfold handler. destruct (find _ handlers) as [[k c']|] eqn:Hfind; [|done].
  simpl. intros [= <-]. apply find_some in Hfind as [Hin Hk]. simpl in Hk.
  apply String.eqb_eq in Hk as ->. by apply list_elem_of_In.
Qed.

(** X9. A boolean dropdown round-trips: what a pass assigns to it for a
    boolean is the string its handler reads back as that boolean. *)
Theorem boolean_dropdown_round_trip key b element st :
  handler key = Some AsBoolean ->
  updateControl plain_setter panel key (Bool b) = [SetValue key (Str (ToString (Bool b)))] /\
  onchange key (plain_setter element (Str (ToString (Bool b)))) st =
    applySetting key (Bool b) st.
Proof.
  intros Hhandler. split.
  - apply handler_cases in Hhandler.
    assert (Forall (fun h => h.2 = AsBoolean -> forall b,
              updateControl plain_setter panel h.1 (Bool b) =
              [SetValue h.1 (Str (ToString (Bool b)))]) handlers) as Hall.
    { unfold handlers. repeat apply List.Forall_cons; try apply List.Forall_nil;
        cbn [fst snd]; first [ discriminate | intros _ [|]; vm_compute; reflexivity ]. }
    rewrite Forall_forall in Hall. apply (Hall _ Hhandler eq_refl b).
  - unfold onchange. rewrite Hhandler. by destruct b.
Qed.

(** *** parseInt stops at the decimal point *)

Lemma read_digits_stop ip c rest acc count :
  all_digits ip -> is_digit c = false ->
  read_digits (ip +:+ String c rest) acc count =
  ((read_digits ip acc count).1.1, (read_digits ip acc count).1.2, String c rest).
Proof.
  unfold all_digits. revert acc count. induction ip as [|d ip IH]; intros acc count Hip Hc.
  - simpl. by rewrite Hc.
  - apply Forall_cons in Hip as [Hd Hip].
    change (String d ip +:+ String c rest) with (String d (ip +:+ String c rest)).
    cbn [read_digits]. rewrite Hd. by apply IH.
Qed.

Lemma digit_not_space c : is_digit c = true -> is_space c = false.
Proof. destruct c as [[] [] [] [] [] [] [] []]; by vm_compute. Qed.

Lemma parseInt_digits_then d ip rest :
  is_digit d = true ->
  parseInt (String d ip +:+ rest) = parse_digits false (String d ip +:+ rest).
Proof.
  intros Hd. unfold parseInt.
  change (String d ip +:+ rest) with (String d (ip +:+ rest)).
  cbn [trim_start]. rewrite (digit_not_space d Hd).
  destruct d as [[] [] [] [] [] [] [] []]; try done.
Qed.

Lemma append_nil_r s : s +:+ "" = s.
Proof.
  induction s as [|c s IH]; [done|].
  change (String c (s +:+ "") = String c s). by rewrite IH.
Qed.

Lemma digit_is_no_x c : is_digit c = true -> c <> "x"%char /\ c <> "X"%char.
Proof. destruct c as [[] [] [] [] [] [] [] []]; by vm_compute. Qed.

Lemma append_cons c s t : String c s +:+ t = String c (s +:+ t).
Proof. done. Qed.

Lemma no_hex_prefix ip c rest :
  all_digits ip -> is_digit c = false -> c <> "x"%char -> c <> "X"%char ->
  String.prefix "0x" (ip +:+ String c rest) || String.prefix "0X" (ip +:+ String c rest) = false.
Proof.
  unfold all_digits. intros Hip Hc Hx HX.
  destruct ip as [|d [|d2 ip]]; rewrite ?append_cons;
    change ("" +:+ String c rest) with (String c rest); cbn [String.prefix].
  - destruct (ascii_dec "0" c) as [<-|]; [done|done].
  - destruct (ascii_dec "0" d); [|done].
    destruct (ascii_dec "x" c); [congruence|]. by destruct (ascii_dec "X" c); [congruence|].
  - apply Forall_cons in Hip as [_ Hip]. apply Forall_cons in Hip as [Hd2 _].
    apply digit_is_no_x in Hd2 as [? ?].
    destruct (ascii_dec "0" d); [|done].
    destruct (ascii_dec "x" d2); [congruence|]. by destruct (ascii_dec "X" d2); [congruence|].
Qed.

Lemma parse_digits_stop ip c rest :
  all_digits ip -> is_digit c = false -> c <> "x"%char -> c <> "X"%char ->
  parse_digits false (ip +:+ String c rest) =
  integer false ((read_digits ip 0 0).1.1, (read_digits ip 0 0).1.2).
Proof.
  intros Hip Hc Hx HX. unfold parse_digits.
  rewrite no_hex_prefix by done. rewrite read_digits_stop by done. done.
Qed.

Lemma parse_digits_all ip :
  all_digits ip ->
  parse_digits false ip = integer false ((read_digits ip 0 0).1.1, (read_digits ip 0 0).1.2).
Proof.
  intros Hip. unfold parse_digits.
  assert (String.prefix "0x" ip || String.prefix "0X" ip = false) as ->.
  { unfold all_digits in Hip. destruct ip as [|d [|d2 ip]]; cbn [String.prefix]; [done| |].
    - by destruct (ascii_dec "0" d).
    - apply Forall_cons in Hip as [_ Hip]. apply Forall_cons in Hip as [Hd2 _].
      apply digit_is_no_x in Hd2 as [? ?]. destruct (ascii_dec "0" d); [|done].
      destruct (ascii_dec "x" d2); [congruence|]. by destruct (ascii_dec "X" d2); [congruence|]. }
  by destruct (read_digits ip 0 0) as [[n count] rest].
Qed.

Lemma parseInt_fraction ip fp :
  all_digits ip -> parseInt (ip +:+ "." +:+ fp) = parseInt ip.
Proof.
  intros Hip. destruct ip as [|d ip]; [done|].
  assert (is_digit d = true) as Hd by (by apply Forall_cons in Hip as [? _]).
  rewrite parseInt_digits_then by done.
  rewrite <- (append_nil_r (String d ip)) at 2.
  rewrite parseInt_digits_then by done. rewrite append_nil_r.
  change ("." +:+ fp) with (String "." fp).
  by rewrite parse_digits_stop, parse_digits_all.
Qed.

Lemma read_digits_all ip acc count :
  all_digits ip -> 0 <= acc ->
  exists n, read_digits ip acc count = (n, (count + String.length ip)%nat, "") /\ 0 <= n.
Proof.
  unfold all_digits. revert acc count. induction ip as [|d ip IH]; intros acc count Hip Hacc.
  - exists acc. by rewrite Nat.add_0_r.
  - apply Forall_cons in Hip as [Hd Hip]. cbn [read_digits]. rewrite Hd.
    destruct (IH (10 * acc + Z.of_nat (nat_of_ascii d - 48)) (S count) Hip) as (n & -> & Hn);
      [lia|].
    exists n. split; [|done]. cbn [String.length]. do 2 f_equal. lia.
Qed.

Lemma digit_is_no_sign d :
  is_digit d = true -> d <> "-"%char /\ d <> "+"%char /\ d <> "I"%char.
Proof. destruct d as [[] [] [] [] [] [] [] []]; by vm_compute. Qed.

Lemma parseFloat_digits d ip :
  all_digits (String d ip) ->
  parseFloat (String d ip) = integer false ((read_digits (String d ip) 0 0).1.1,
                                            (read_digits (String d ip) 0 0).1.2).
Proof.
  intros Hip.
  assert (is_digit d = true) as Hd by (by apply Forall_cons in Hip as [? _]).
  destruct (digit_is_no_sign d Hd) as (Hminus & Hplus & HI).
  assert (parseFloat (String d ip) = parse_unsigned false (String d ip)) as ->.
  { unfold parseFloat. cbn [trim_start]. rewrite (digit_not_space d Hd).
    destruct d as [[] [] [] [] [] [] [] []]; try done. }
  unfold parse_unsigned.
  assert (String.prefix "Infinity" (String d ip) = false) as ->.
  { cbn [String.prefix]. by destruct (ascii_dec "I" d) as [<-|]. }
  destruct (read_digits_all (String d ip) 0 0 Hip) as (n & Hread & Hn); [done|].
  rewrite Hread. cbn [fst snd String.length Nat.add integer read_exponent].
  unfold round_decimal. destruct n as [|n|n]; [done| |lia].
  cbn [Z.leb Z.compare]. by rewrite Z.pow_0_r, Z.mul_1_r, Z.mul_1_l.
Qed.

Lemma parseInt_whole ip : all_digits ip -> parseInt ip = parseFloat ip.
Proof.
  intros Hip. destruct ip as [|d ip]; [done|].
  assert (is_digit d = true) as Hd by (by apply Forall_cons in Hip as [? _]).
  rewrite parseFloat_digits by done.
  rewrite <- (append_nil_r (String d ip)) at 1.
  rewrite parseInt_digits_then by done. rewrite append_nil_r.
  by apply parse_digits_all.
Qed.

(** X10. The suggest line-height slider commits the whole part only: its
    handler reads the value with [parseInt], which stops at the decimal
    point, and commits the number the digits before it denote. *)
Theorem line_height_slider_commits_whole_part ip fp st :
  all_digits ip ->
  let key := "editor.suggestLineHeight" in
  onchange key (ip +:+ "." +:+ fp) st = applySetting key (Num (parseFloat ip)) st.
Proof.
  intros Hip key.
  change (onchange key ?raw st) with (applySetting key (Num (parseInt raw)) st).
  by rewrite parseInt_fraction, parseInt_whole.
Qed.

(** ** The handlers of the extension *)

(** What [_applySettings] requests, and what it leaves alone. *)
Lemma _applySettings_frame writable settings p :
  let p' := _applySettings writable settings p in
  requested p' = requested p ++ settings /\
  sent p' = sent p /\ timers p' = timers p /\
  _configUpdateTimer p' = _configUpdateTimer p /\ config p' = config p /\ now p' = now p.
Proof.
  unfold _applySettings. cbn zeta.
  set (f := fun (p : Panel) '(key, value) =>
              let p := with_requested (requested p ++ [(key, value)]) p in
              if writable key then p else with_notices (notices p ++ [FailedToUpdate key]) p).
  assert (forall p,
            requested (foldl f p settings) = requested p ++ settings /\
            sent (foldl f p settings) = sent p /\ timers (foldl f p settings) = timers p /\
            _configUpdateTimer (foldl f p settings) = _configUpdateTimer p /\
            config (foldl f p settings) = config p /\ now (foldl f p settings) = now p) as H.
  { clear p. induction settings as [|[key value] settings IH]; intros p.
    - simpl. by rewrite !app_nil_r.
    - change (foldl f p ((key, value) :: settings)) with (foldl f (f p (key, value)) settings).
      destruct (IH (f p (key, value))) as (-> & -> & -> & -> & -> & ->).
      subst f. simpl. destruct (writable key); simpl; rewrite <- ?app_assoc; done. }
  apply (H p).
Qed.

(** X11. [_applySettings] reports each rejected update, in the order of
    the settings, and then announces success, whatever was rejected. *)
Theorem success_is_announced_whatever_failed writable settings p :
  notices (_applySettings writable settings p) =
  notices p ++
  (FailedToUpdate <$> List.filter (fun key => negb (writable key)) settings.*1) ++
  [Information "Settings applied successfully!"].
Proof.
  unfold _applySettings. cbn zeta.
  set (f := fun (p : Panel) '(key, value) =>
              let p := with_requested (requested p ++ [(key, value)]) p in
              if writable key then p else with_notices (notices p ++ [FailedToUpdate key]) p).
  assert (forall p,
            notices (foldl f p settings) =
            notices p ++
            (FailedToUpdate <$> List.filter (fun key => negb (writable key)) settings.*1)) as H.
  { clear p. induction settings as [|[key value] settings IH]; intros p.
    - simpl. by rewrite !app_nil_r.
    - change (foldl f p ((key, value) :: settings)) with (foldl f (f p (key, value)) settings).
      rewrite (IH (f p (key, value))).
      rewrite fmap_cons. subst f. simpl. destruct (writable key); simpl;
        rewrite <- ?app_assoc; done. }
  simpl. rewrite (H p). by rewrite <- app_assoc.
Qed.


Lemma foldl_with_requested_timers {A} (f : A -> string * Value) (l : list A) p :
  timers (foldl (fun p x => with_requested (requested p ++ [f x]) p) p l) = timers p /\
  _configUpdateTimer (foldl (fun p x => with_requested (requested p ++ [f x]) p) p l) =
    _configUpdateTimer p.
Proof.
  revert p. induction l as [|x l IH]; intros p; [done|].
  simpl foldl. destruct (IH (with_requested (requested p ++ [f x]) p)) as [-> ->]. done.
Qed.

Lemma onDidReceiveMessage_timers writable message p :
  timers (onDidReceiveMessage writable message p) = timers p /\
  _configUpdateTimer (onDidReceiveMessage writable message p) = _configUpdateTimer p.
Proof.
  destruct message as [settings|settingKeys| |].
  - change (onDidReceiveMessage writable (ApplySettings settings) p)
      with (_applySettings writable settings p).
    by destruct (_applySettings_frame writable settings p) as (_ & _ & -> & -> & _).
  - apply (foldl_with_requested_timers (fun key => (key, Undefined))).
  - apply (foldl_with_requested_timers (fun entry : string * Value => entry)
             recommendedSettings p).
  - done.
Qed.

(** *** At most one timeout *)

Lemma tidy_advance t p : tidy p -> tidy (advance t p).
Proof.
  intros [Hidle|(handle & d & Htimers & Hhandle)].
  - rewrite advance_idle by done. by left.
  - unfold advance. rewrite (due_single _ _ _ _ Htimers).
    destruct (decide (d <= t)).
    + left. simpl. by rewrite Htimers, delete_singleton_eq.
    + right. by exists handle, d.
Qed.

Lemma tidy_onDidChangeConfiguration e p : tidy p -> tidy (onDidChangeConfiguration e p).
Proof.
  intros Htidy. unfold onDidChangeConfiguration. destruct (relevant e); [|done].
  right. exists (next_handle p), (now p + 300).
  destruct Htidy as [Hidle|(handle & d & Htimers & Hhandle)].
  - destruct (_configUpdateTimer p); simpl; by rewrite Hidle, ?delete_empty, insert_empty.
  - rewrite Hhandle. simpl. by rewrite Htimers, delete_singleton_eq, insert_empty.
Qed.

Lemma tidy_step writable p event : tidy p -> tidy (step writable p event).
Proof.
  destruct event as [t [config' e|message|]]; intros Htidy%(tidy_advance t); simpl.
  - apply tidy_onDidChangeConfiguration.
    destruct Htidy as [?|(handle & d & ? & ?)]; [by left | right; by exists handle, d].
  - destruct (onDidReceiveMessage_timers writable message (advance t p)) as [Ht Hh].
    unfold tidy. by rewrite Ht, Hh.
  - done.
Qed.

Lemma tidy_process writable events p : tidy p -> tidy (process writable events p).
Proof.
  revert p. induction events as [|event events IH]; intros p Htidy; [done|].
  apply IH. by apply tidy_step.
Qed.

(** X12. Whatever happens to a panel since it was opened, at most one
    timeout is armed, and it is the one [_configUpdateTimer] names. *)
Theorem one_timeout_at_most writable events c t :
  let p := process writable events (opened c t) in
  (size (timers p) <= 1)%nat /\
  forall handle, is_Some (timers p !! handle) -> _configUpdateTimer p = Some handle.
Proof.
  intros p. assert (tidy p) as [Hidle|(handle & d & Htimers & Hhandle)].
  { apply tidy_process. by left. }
  - rewrite Hidle. split; [rewrite map_size_empty; lia|].
    intros handle [d Hd]. by rewrite lookup_empty in Hd.
  - rewrite Htimers. split; [rewrite map_size_singleton; lia|].
    intros h [d' Hd]. apply lookup_singleton_Some in Hd as [<- _]. done.
Qed.

(** X13. [dispose()] leaves no timeout armed: however long the clock
    runs on, a disposed panel sends nothing more. *)
Theorem dispose_silences_the_timer writable events c t T :
  let p := process writable events (opened c t) in
  timers (dispose p) = ∅ /\ sent (advance T (dispose p)) = sent p.
Proof.
  intros p. assert (tidy p) as Htidy by (apply tidy_process; by left).
  assert (timers (dispose p) = ∅) as Hidle.
  { unfold dispose. destruct Htidy as [Hidle|(handle & d & Htimers & Hhandle)].
    - destruct (_configUpdateTimer p); simpl; by rewrite ?Hidle, ?delete_empty.
    - rewrite Hhandle. simpl. by rewrite Htimers, delete_singleton_eq. }
  split; [done|]. rewrite advance_idle by done. simpl.
  unfold dispose. by destruct (_configUpdateTimer p).
Qed.

(** Pending to pending, the timer having run out in between: the pass
    that was due is sent first, then the change arms the timer anew. *)
Lemma changed_after_quiet p t n c s t' c' e :
  armed p t n c s -> t + 300 <= t' -> relevant e = true ->
  armed (changed p (t', c', e)) t' t' c' (s ++ [(t + 300, currentSettings c)]).
Proof.
  intros (handle & Htimers & Hhandle & Hsent & Hconfig & Hnow & Hwait) Ht Hrel.
  unfold changed, advance. rewrite (due_single _ _ _ _ Htimers).
  rewrite decide_True by lia. simpl.
  unfold onDidChangeConfiguration. rewrite Hrel. simpl. rewrite Hhandle. simpl.
  exists (next_handle p). simpl.
  rewrite Htimers, delete_singleton_eq, delete_empty, insert_empty, Hnow, Hsent, Hconfig.
  rewrite (Z.max_r n (t + 300)) by lia. rewrite (Z.max_r (t + 300) t') by lia.
  repeat split; try done; lia.
Qed.

Lemma changes_spaced events p t n c s T :
  armed p t n c s -> spaced (t + 300) events -> last_time t events + 300 <= T ->
  sent (advance T (changes events p)) = s ++ (t + 300, currentSettings c) :: passes events.
Proof.
  revert p t n c s. induction events as [|[[t' c'] e] events IH]; intros p t n c s Harmed Hs HT.
  - simpl in HT. rewrite (advance_armed _ _ _ _ _ _ Harmed).
    + by rewrite bool_decide_eq_false_2 by lia.
    + destruct Harmed as (_ & _ & _ & _ & _ & _ & ?). lia.
  - destruct Hs as (Ht & Hrel & Hs). simpl in HT.
    pose proof (changed_after_quiet p t n c s t' c' e Harmed ltac:(lia) Hrel) as Hnext.
    change (changes (_ :: events) p) with (changes events (changed p (t', c', e))).
    rewrite (IH _ _ _ _ _ Hnext Hs HT). by rewrite <- app_assoc.
Qed.

(** X14. Relevant changes more than a quiet period apart are not
    coalesced: each of them gets a snapshot of its own, of the store as
    it was at that change, a quiet period after it. *)
Theorem a_pass_for_each_spaced_change events p T :
  timers p = ∅ -> spaced (now p) events -> last_time (now p) events + 300 <= T ->
  sent (advance T (changes events p)) = sent p ++ passes events.
Proof.
  intros Hidle Hs HT. destruct events as [|[[t c] e] events].
  - rewrite advance_idle by done. simpl. by rewrite app_nil_r.
  - destruct Hs as (Ht & Hrel & Hs). simpl in HT.
    pose proof (changed_idle p t c e Hidle ltac:(lia) Hrel) as Harmed.
    change (changes (_ :: events) p) with (changes events (changed p (t, c, e))).
    by rewrite (changes_spaced _ _ _ _ _ _ _ Harmed Hs HT).
Qed.

(** *** What the listener takes for relevant *)

Lemma affectsConfiguration_one e key section :
  key ∈ e -> affectsConfiguration [key] section = true ->
  affectsConfiguration e section = true.
Proof.
  intros Hin. unfold affectsConfiguration. cbn [existsb]. rewrite orb_false_r. intros H.
  apply existsb_exists. exists key. split; [by apply list_elem_of_In | done].
Qed.

Lemma relevant_one e key : key ∈ e -> relevant [key] = true -> relevant e = true.
Proof.
  intros Hin. unfold relevant. intros H.
  pose proof (affectsConfiguration_one e key) as Hone.
  remember (affectsConfiguration [key]) as one eqn:E. clear E.
  repeat (apply orb_true_iff in H as [H|H]);
    rewrite (Hone _ Hin H); by rewrite ?orb_true_r.
Qed.

(** X15. A change of any key the panel itself writes or shows is one the
    listener takes for relevant, whatever else changed with it: the
    sections it names cover them all. *)
Theorem own_writes_are_relevant e key :
  key ∈ e -> key ∈ allSettings \/ key ∈ recommendedSettings.*1 -> relevant e = true.
Proof.
  intros Hin Hkey. apply (relevant_one e key Hin).
  assert (forallb (fun key => relevant [key]) (allSettings ++ recommendedSettings.*1) = true)
    as Hall by (vm_compute; reflexivity).
  apply (proj1 (forallb_forall _ _) Hall key), list_elem_of_In, elem_of_app.
  destruct Hkey; [by left | by right].
Qed.

(** ** Writes and what the store keeps of them *)

Section Writes.

Variable writable : string -> bool.

Lemma last_write_app r1 r2 k :
  last_write writable (r1 ++ r2) k =
  match last_write writable r2 k with
  | Some o => Some o
  | None => last_write writable r1 k
  end.
Proof.
  induction r1 as [|[key value] r1 IH]; simpl.
  - by destruct (last_write writable r2 k).
  - rewrite IH. by destruct (last_write writable r2 k).
Qed.

Lemma last_write_absent requests k :
  k ∉ requests.*1 -> last_write writable requests k = None.
Proof.
  induction requests as [|[key value] requests IH]; [done|].
  rewrite fmap_cons, not_elem_of_cons. simpl. intros [Hne Hnotin].
  rewrite IH by done. rewrite bool_decide_eq_false_2 by done. by rewrite andb_false_r.
Qed.

Lemma last_write_rejected requests k :
  writable k = false -> last_write writable requests k = None.
Proof.
  intros Hk. induction requests as [|[key value] requests IH]; [done|].
  simpl. rewrite IH. case_bool_decide as E; [subst; by rewrite Hk|by rewrite andb_false_r].
Qed.

Lemma last_write_at requests k v :
  NoDup requests.*1 -> (k, v) ∈ requests -> writable k = true ->
  last_write writable requests k = Some (stored v).
Proof.
  intros Hnd Hin Hk. induction requests as [|[key value] requests IH].
  - by apply elem_of_nil in Hin.
  - rewrite fmap_cons in Hnd. apply NoDup_cons in Hnd as [Hfresh Hnd]. simpl in *.
    apply elem_of_cons in Hin as [[= <- <-]|Hin].
    + rewrite last_write_absent by done. by rewrite Hk, bool_decide_eq_true_2.
    + by rewrite IH.
Qed.

Lemma clearing_keys (keys : list string) :
  (map (fun key => (key, Undefined)) keys).*1 = keys.
Proof. induction keys as [|key keys IH]; [done|]. cbn. by f_equal. Qed.

Lemma last_write_clear keys k :
  k ∈ keys -> writable k = true ->
  last_write writable (map (fun key => (key, Undefined)) keys) k = Some None.
Proof.
  intros Hin Hk. induction keys as [|key keys IH]; [by apply elem_of_nil in Hin|].
  simpl. destruct (decide (k ∈ keys)) as [Hin'|Hnotin].
  - by rewrite IH.
  - apply elem_of_cons in Hin as [->|]; [|done].
    rewrite (last_write_absent (map (fun key => (key, Undefined)) keys) key).
    + by rewrite Hk, bool_decide_eq_true_2.
    + by rewrite (clearing_keys keys).
Qed.

Lemma recommendedSettings_stored key value :
  (key, value) ∈ recommendedSettings -> stored value = Some value.
Proof.
  assert (Forall (fun entry => stored entry.2 = Some entry.2) recommendedSettings) as Hall.
  { unfold recommendedSettings. by repeat apply List.Forall_cons. }
  rewrite Forall_forall in Hall. intros Hin. apply (Hall _ Hin).
Qed.

(** X16. Apply Preset followed by Reset: of the keys the preset writes,
    Reset clears those the page manages and leaves the others (the
    accessibility signals and audio cues) at their preset value. *)
Theorem reset_spares_what_the_page_lacks p c key value :
  (key, value) ∈ recommendedSettings -> writable key = true ->
  let p' := onDidReceiveMessage writable (ResetSettings allSettings)
              (onDidReceiveMessage writable ApplyRecommended p) in
  globalValue (carry_out writable (requested p') c) !! key =
  if bool_decide (key ∈ allSettings) then None else Some value.
Proof.
  intros Hin Hk p'. subst p'.
  change (onDidReceiveMessage writable (ResetSettings allSettings) ?q)
    with (_resetSettings allSettings q).
  change (onDidReceiveMessage writable ApplyRecommended p) with (_applyRecommendedSettings p).
  rewrite requested_resetSettings, requested_applyRecommended, carry_out_global.
  rewrite !last_write_app.
  case_bool_decide as Hmanaged.
  - by rewrite (last_write_clear _ _ Hmanaged Hk).
  - rewrite last_write_absent.
    + rewrite (last_write_at recommendedSettings key value); [|  |done|done].
      * by rewrite (recommendedSettings_stored key value Hin).
      * apply (bool_decide_unpack _). by vm_compute.
    + by rewrite clearing_keys.
Qed.

End Writes.

(** ** A commit, from the control to the store and back *)

Lemma currentSettings_keys c : (currentSettings c).*1 = currentSettingsKeys.
Proof.
  unfold currentSettings. induction currentSettingsKeys as [|key keys IH]; [done|].
  cbn. by f_equal.
Qed.

Lemma currentSettings_NoDup c : NoDup (currentSettings c).*1.
Proof. rewrite currentSettings_keys. apply (bool_decide_unpack _). by vm_compute. Qed.

Lemma currentSettings_at c key :
  key ∈ currentSettingsKeys -> (key, get c key) ∈ currentSettings c.
Proof.
  unfold currentSettings. intros Hin.
  apply list_elem_of_In, in_map_iff. exists key. split; [done|]. by apply list_elem_of_In.
Qed.

Lemma onUpdateSettings_at host document settings st K V' :
  NoDup settings.*1 -> (K, V') ∈ settings ->
  let st' := onUpdateSettings host document settings st in
  (pendingUpdates st' !! K, pushes_to K (assignments st')) =
  match pendingUpdates st !! K with
  | Some V =>
      if strict_equals V V'
      then (None, pushes_to K (assignments st) ++ updateControl host document K V')
      else (Some V, pushes_to K (assignments st))
  | None => (None, pushes_to K (assignments st) ++ updateControl host document K V')
  end.
Proof.
  intros Hnd Hin st'. subst st'.
  pose proof (updateUIWithSettings_at host document (pendingUpdates st) settings K V' Hnd Hin)
    as Hat.
  unfold onUpdateSettings.
  destruct (updateUIWithSettings host document (pendingUpdates st) settings) as [l o].
  simpl in *. rewrite pushes_to_app.
  destruct (pendingUpdates st !! K) as [V|]; [destruct (strict_equals V V')|];
    injection Hat as -> ->; by rewrite ?app_nil_r.
Qed.

Section Commit.

Variable host : ValueSetter.
Variable document : Document.
Variable writable : string -> bool.

Lemma requested_commit K V p :
  requested (onDidReceiveMessage writable (ApplySettings [(K, V)]) p) = requested p ++ [(K, V)].
Proof. apply (_applySettings_frame writable [(K, V)] p). Qed.

(** X17. A commit the store accepts comes back: the store then reads
    the committed value, and the pass over its snapshot resolves the
    entry and assigns the value to the control. *)
Theorem accepted_commit_comes_back K V p c st :
  K ∈ currentSettingsKeys -> writable K = true -> workspaceValue c !! K = None ->
  plain V -> V <> Undefined ->
  get (written writable K V p c) K = V /\
  pendingUpdates (echoed host document writable K V p c st) !! K = None /\
  pushes_to K (assignments (echoed host document writable K V p c st)) =
    pushes_to K (assignments st) ++ updateControl host document K V.
Proof.
  intros Hkey Hw Hws HV Hdef.
  assert (get (written writable K V p c) K = V) as Hget.
  { unfold get, written. rewrite (proj2 (carry_out_layers _ _ _)), Hws.
    rewrite carry_out_global, requested_commit, last_write_app. simpl.
    rewrite Hw, bool_decide_eq_true_2 by done. by destruct V. }
  split; [done|].
  pose proof (currentSettings_at (written writable K V p c) K Hkey) as Hin. rewrite Hget in Hin.
  pose proof (onUpdateSettings_at host document (currentSettings (written writable K V p c))
                (applySetting K V st) K V (currentSettings_NoDup _) Hin) as Hat.
  cbn zeta in Hat. fold (echoed host document writable K V p c st) in Hat.
  cbn [pendingUpdates assignments applySetting] in Hat. rewrite lookup_insert_eq in Hat.
  rewrite (proj2 (strict_equals_plain V V HV HV) eq_refl) in Hat.
  by apply pair_eq in Hat.
Qed.

(** X18. A commit the store refuses, or one a workspace value shadows,
    never comes back: the store reads as before, and the pass over its
    snapshot leaves the entry pending and the control untouched. *)
Theorem refused_commit_stays_pending K V p c st :
  K ∈ currentSettingsKeys ->
  writable K = false \/ is_Some (workspaceValue c !! K) ->
  strict_equals V (get c K) = false ->
  get (written writable K V p c) K = get c K /\
  pendingUpdates (echoed host document writable K V p c st) !! K = Some V /\
  pushes_to K (assignments (echoed host document writable K V p c st)) = pushes_to K (assignments st).
Proof.
  intros Hkey Hrefused Hstale.
  assert (get (written writable K V p c) K = get c K) as Hget.
  { unfold get, written.
    rewrite (proj1 (carry_out_layers _ _ _)), (proj2 (carry_out_layers _ _ _)).
    destruct Hrefused as [Hw|[W ->]]; [|done].
    rewrite carry_out_global, last_write_rejected by done. done. }
  split; [done|].
  pose proof (onUpdateSettings_at host document (currentSettings (written writable K V p c))
                (applySetting K V st) K (get (written writable K V p c) K) (currentSettings_NoDup _)
                (currentSettings_at _ _ Hkey)) as Hat.
  cbn zeta in Hat. fold (echoed host document writable K V p c st) in Hat.
  cbn [pendingUpdates assignments applySetting] in Hat.
  rewrite lookup_insert_eq, Hget, Hstale in Hat.
  by apply pair_eq in Hat.
Qed.

(** X19. A Pending Entry hides the preset: when Apply Preset writes
    another value to a key that has an entry, the store takes the
    preset's value, and the pass over its snapshot leaves the entry
    pending and the control untouched. *)
Theorem pending_entry_hides_preset p c st K V V' :
  (K, V') ∈ recommendedSettings -> K ∈ currentSettingsKeys ->
  writable K = true -> workspaceValue c !! K = None ->
  pendingUpdates st !! K = Some V -> strict_equals V V' = false ->
  let c' := carry_out writable
              (requested (onDidReceiveMessage writable ApplyRecommended p)) c in
  let st' := onUpdateSettings host document (currentSettings c') (applyRecommended st) in
  get c' K = V' /\
  pendingUpdates st' !! K = Some V /\
  pushes_to K (assignments st') = pushes_to K (assignments st).
Proof.
  intros Hpreset Hkey Hw Hws Hpending Hstale c' st'.
  assert (get c' K = V') as Hget.
  { subst c'. unfold get. rewrite (proj2 (carry_out_layers _ _ _)), Hws.
    change (onDidReceiveMessage writable ApplyRecommended p)
      with (_applyRecommendedSettings p).
    rewrite carry_out_global, requested_applyRecommended, last_write_app.
    rewrite (last_write_at writable recommendedSettings K V');
      [| apply (bool_decide_unpack _); by vm_compute | done | done].
    by rewrite (recommendedSettings_stored K V' Hpreset). }
  split; [done|].
  pose proof (currentSettings_at c' K Hkey) as Hin. rewrite Hget in Hin.
  pose proof (onUpdateSettings_at host document (currentSettings c') (applyRecommended st)
                K V' (currentSettings_NoDup _) Hin) as Hat.
  cbn zeta in Hat. fold st' in Hat.
  cbn [pendingUpdates assignments applyRecommended] in Hat.
  rewrite Hpending, Hstale in Hat. by apply pair_eq in Hat.
Qed.

End Commit.

(** ** The tables of the two sides *)

Lemma allSettings_on_page :
  Forall (fun key =>
            exists element,
              getElementById panel key = Some element /\ el_tagName element <> "SPAN")
         allSettings.
Proof.
  assert (forallb (fun key =>
                     match getElementById panel key with
                     | Some element => negb (String.eqb (el_tagName element) "SPAN")
                     | None => false
                     end) allSettings = true) as Hall by (vm_compute; reflexivity).
  apply Forall_forall. intros key Hkey%list_elem_of_In.
  pose proof (proj1 (forallb_forall _ _) Hall key Hkey) as H. cbn beta in H.
  destruct (getElementById panel key) as [element|]; [|done].
  exists element. split; [done|]. intros Hspan. by rewrite Hspan in H.
Qed.

(** X20. The snapshot the extension sends lists the keys Reset clears,
    each once, whatever the store holds; they are the keys the page has
    a change handler for, and each has a control on the page that is
    not a label.  No entry of such a snapshot is skipped for want of a
    control. *)
Theorem snapshot_matches_page c :
  (currentSettings c).*1 = allSettings /\ NoDup allSettings /\ handlers.*1 = allSettings /\
  Forall (fun key =>
            exists element,
              getElementById panel key = Some element /\ el_tagName element <> "SPAN")
         allSettings.
Proof.
  split; [by rewrite currentSettings_keys|].
  split; [apply (bool_decide_unpack _); by vm_compute|].
  split; [done | apply allSettings_on_page].
Qed.

Lemma updateControl_head host document key value element :
  getElementById document key = Some element ->
  exists v rest, updateControl host document key value = SetValue key v :: rest.
Proof.
  intros Hel. pose proof (getElementById_id _ _ _ Hel) as Hid.
  unfold updateControl. rewrite Hel, Hid.
  destruct (bool_decide (el_type element = Some "range")); [by eexists _, _|].
  destruct (bool_decide (el_type element = Some "number")); [by eexists _, _|].
  destruct (String.eqb (el_tagName element) "SELECT" && is_boolean value); [by eexists _, _|].
  destruct (String.eqb (el_tagName element) "SELECT"); by eexists _, _.
Qed.

(** X21. The page load: the script asks for the settings, the extension
    answers with a snapshot of the store, and the pass over it, the
    ledger being empty, pushes to every control of the page what the
    store has for its key, leaving the ledger empty. *)
Theorem page_load_fills_every_control host writable c t :
  let p := onDidReceiveMessage writable GetCurrentSettings (opened c t) in
  let st := onUpdateSettings host panel (currentSettings c) (onLoad initial) in
  posted (onLoad initial) = [GetCurrentSettings] /\
  sent p = [(t, currentSettings c)] /\
  pendingUpdates st = ∅ /\
  Forall (fun key =>
            pushes_to key (assignments st) = updateControl host panel key (get c key) /\
            exists v rest, pushes_to key (assignments st) = SetValue key v :: rest)
         allSettings.
Proof.
  intros p st. split; [done|]. split; [done|].
  assert (pendingUpdates st = (updateUIWithSettings host panel ∅ (currentSettings c)).1 /\
          assignments st = (updateUIWithSettings host panel ∅ (currentSettings c)).2)
    as [Hl Ha].
  { subst st. unfold onUpdateSettings. cbn [pendingUpdates onLoad initial assignments posted].
    by destruct (updateUIWithSettings host panel ∅ (currentSettings c)). }
  split.
  - rewrite Hl. apply map_eq. intros k. rewrite lookup_empty.
    destruct ((updateUIWithSettings host panel ∅ (currentSettings c)).1 !! k) as [v|] eqn:E;
      [|done].
    apply updateUIWithSettings_survivor in E. by rewrite lookup_empty in E.
  - pose proof allSettings_on_page as Hpage.
    rewrite Forall_forall in Hpage. apply Forall_forall. intros key Hkey.
    destruct (Hpage key Hkey) as (element & Hel & _).
    assert (pushes_to key (assignments st) = updateControl host panel key (get c key)) as Hpush.
    { pose proof (updateUIWithSettings_at host panel ∅ (currentSettings c) key (get c key)
                    (currentSettings_NoDup c) (currentSettings_at c key Hkey)) as Hat.
      rewrite lookup_empty in Hat. apply pair_eq in Hat as [_ Hat]. by rewrite Ha. }
    split; [done|]. rewrite Hpush. by eapply updateControl_head.
Qed.

(** ** The prompt to install the font *)

Example endsWith_known :
  endsWith (toLowerCase "AtkinsonHyperlegibleMono-Regular.TTF") ".ttf" = true /\
  endsWith (toLowerCase "OFL.txt") ".ttf" = false /\
  endsWith (toLowerCase "ttf") ".ttf" = false.
Proof. by vm_compute. Qed.

Lemma activations_from hosts shown effects :
  foldl (fun state h =>
           let '(shown, effects) := maybePromptForFontInstall h state.1 in
           (shown, state.2 ++ effects))
        (shown, effects) hosts =
  ((activations hosts shown).1, effects ++ (activations hosts shown).2).
Proof.
  unfold activations. revert shown effects.
  induction hosts as [|h hosts IH]; intros shown effects.
  - simpl. by rewrite app_nil_r.
  - cbn [foldl fst snd].
    destruct (maybePromptForFontInstall h shown) as [shown' effects'].
    rewrite (IH shown' (effects ++ effects')), (IH shown' ([] ++ effects')).
    cbn [fst snd]. by rewrite app_assoc.
Qed.

Lemma activations_cons h hosts shown :
  activations (h :: hosts) shown =
  ((activations hosts (maybePromptForFontInstall h shown).1).1,
   (maybePromptForFontInstall h shown).2 ++
   (activations hosts (maybePromptForFontInstall h shown).1).2).
Proof.
  unfold activations at 1. cbn [foldl fst snd].
  destruct (maybePromptForFontInstall h shown) as [shown' effects'].
  apply activations_from.
Qed.

Lemma maybePromptForFontInstall_prompts h :
  List.filter is_prompt (maybePromptForFontInstall h false).2 = [ShowPrompt].
Proof.
  unfold maybePromptForFontInstall. destruct (result h) as [r|]; [|done].
  repeat (match goal with |- context [if ?b then _ else _] => destruct b end; try done).
Qed.

Lemma activations_sticky hosts : (activations hosts true).1 = true.
Proof.
  induction hosts as [|h hosts IH]; [done|].
  rewrite activations_cons. by cbn [maybePromptForFontInstall fst snd].
Qed.

(** X22. Once the flag is set the prompt is never shown again, and
    nothing else is: every later activation is silent and leaves the
    flag set. *)
Theorem answered_prompt_never_returns hosts :
  activations hosts true = (true, []).
Proof.
  induction hosts as [|h hosts IH]; [done|].
  rewrite activations_cons. cbn [maybePromptForFontInstall fst snd]. by rewrite IH.
Qed.

(** X23. As long as the flag is not set, every activation has shown the
    prompt, once: a dismissed prompt, and one whose folder could not be
    opened, come back at the next activation. *)
Theorem unanswered_prompt_returns hosts :
  (activations hosts false).1 = false ->
  length (List.filter is_prompt (activations hosts false).2) = length hosts.
Proof.
  induction hosts as [|h hosts IH]; [done|].
  rewrite activations_cons. cbn [fst snd].
  destruct (maybePromptForFontInstall h false).1 eqn:Hshown.
  - by rewrite activations_sticky.
  - intros H. rewrite List.filter_app, length_app, maybePromptForFontInstall_prompts.
    by rewrite (IH H).
Qed.

(** X24. What is revealed is the fonts folder or a file of it: the first
    entry of the folder that is a file and whose name ends in [.ttf],
    whatever the case of its letters. *)
Theorem reveals_the_first_font_file h shown :
  Forall (fun effect =>
            match effect with
            | RevealFileInOS FontsDir =>
                forall listing, entries h = Some listing -> find is_ttf listing = None
            | RevealFileInOS (FontFile name) =>
                exists listing type before after,
                  entries h = Some listing /\
                  listing = before ++ (name, type) :: after /\
                  is_ttf (name, type) = true /\
                  Forall (fun entry => is_ttf entry = false) before
            | _ => True
            end)
         (maybePromptForFontInstall h shown).2.
Proof.
  unfold maybePromptForFontInstall. destruct shown; [by constructor|].
  destruct (result h) as [r|]; [|by repeat constructor].
  destruct (String.eqb r ""); [by repeat constructor|].
  destruct (String.eqb r "Don't show again"); [by repeat constructor|].
  destruct (String.eqb r "How to Install");
    [destruct (openExternal_returns h); by repeat constructor|].
  destruct (String.eqb r "Install Font Now"); [|by repeat constructor].
  assert (match default FontsDir
                  match entries h with
                  | Some listing => (fun ttf => FontFile ttf.1) <$> find is_ttf listing
                  | None => None
                  end with
          | FontsDir =>
              forall listing, entries h = Some listing -> find is_ttf listing = None
          | FontFile name =>
              exists listing type before after,
                entries h = Some listing /\
                listing = before ++ (name, type) :: after /\
                is_ttf (name, type) = true /\
                Forall (fun entry => is_ttf entry = false) before
          end) as Huri.
  { destruct (entries h) as [listing|]; [|done].
    destruct (find is_ttf listing) as [[name type]|] eqn:Hfind; simpl.
    - exists listing, type. clear - Hfind.
      induction listing as [|entry listing IH]; [done|].
      simpl in Hfind. destruct (is_ttf entry) eqn:Hentry.
      + injection Hfind as ->. exists [], listing. by repeat split.
      + destruct (IH Hfind) as (before & after & _ & -> & Httf & Hbefore).
        exists (entry :: before), after. repeat split; try done. by constructor.
    - by intros ? [= <-]. }
  destruct (revealFileInOS_returns h); by repeat constructor.
Qed.

(** ** Instances *)

Lemma pass_decides_each_entry_witness :
  let pending : gmap string Value :=
    {["editor.wordWrap" := Str "on"; "editor.suggestFontSize" := Num 16]} in
  let settings :=
    [("editor.wordWrap", Str "on"); ("editor.suggestFontSize", Num 14);
     ("editor.minimap.enabled", Bool false)] in
  NoDup settings.*1 /\
  updateUIWithSettings plain_setter panel pending settings =
  (foldl (fun m e => if resolved pending e then delete e.1 m else m) pending settings,
   flat_map (fun e => if stale pending e then [] else updateControl plain_setter panel e.1 e.2)
            settings).
Proof.
  intros pending settings.
  assert (NoDup settings.*1) as Hnd by distinct_keys.
  split; [done|]. by apply (pass_decides_each_entry plain_setter panel pending settings).
Defined.

Lemma ledger_holds_last_commit_witness :
  let K := "editor.wordWrap" in
  let actions :=
    [Commit K (Str "on"); ClickRecommended; Commit "editor.fontSize" (Num 18);
     UpdateSettings [(K, Str "off")]; Commit K (Str "bounded"); PageLoad] in
  pendingUpdates (run plain_setter panel actions initial) !! K = Some (Str "bounded") /\
  last_commit K actions None = Some (Str "bounded").
Proof.
  intros K actions.
  assert (pendingUpdates (run plain_setter panel actions initial) !! K = Some (Str "bounded"))
    as H by by vm_compute.
  split; [done|]. apply (ledger_holds_last_commit plain_setter panel actions K _ H).
Defined.

Lemma stale_by_entries V K (settings : list (string * Value)) :
  Forall (fun entry => entry.1 = K -> strict_equals V entry.2 = false) settings ->
  forall v, (K, v) ∈ settings -> strict_equals V v = false.
Proof. rewrite Forall_forall. intros H v Hin. apply (H (K, v) Hin eq_refl). Qed.

Lemma stale_entry_outlasts_passes_witness :
  let K := "editor.wordWrap" in
  let st := applySetting K (Str "on") initial in
  let snapshots :=
    [ [(K, Str "off"); ("editor.fontSize", Num 14)];
      [("editor.fontSize", Num 16); (K, Str "bounded")] ] in
  let st' := run plain_setter panel (UpdateSettings <$> snapshots) st in
  pendingUpdates st' !! K = Some (Str "on") /\
  pushes_to K (assignments st') = pushes_to K (assignments st) /\
  posted st' = posted st.
Proof.
  intros K st snapshots.
  apply (stale_entry_outlasts_passes plain_setter panel snapshots st K (Str "on")).
  - by vm_compute.
  - repeat apply List.Forall_cons; try apply List.Forall_nil;
      apply stale_by_entries; repeat apply List.Forall_cons; try apply List.Forall_nil;
      by vm_compute.
Defined.

Lemma boolean_dropdown_round_trip_witness :
  let key := "editor.minimap.enabled" in
  handler key = Some AsBoolean /\
  updateControl plain_setter panel key (Bool false) = [SetValue key (Str "false")] /\
  onchange key (plain_setter (select key "true") (Str "false")) initial =
    applySetting key (Bool false) initial.
Proof.
  intros key. split; [done|].
  by apply (boolean_dropdown_round_trip key false (select key "true") initial).
Defined.

Lemma line_height_slider_commits_whole_part_witness :
  all_digits "1" /\
  onchange "editor.suggestLineHeight" "1.6" initial =
  applySetting "editor.suggestLineHeight" (Num 1) initial.
Proof.
  assert (all_digits "1") as H by (by repeat constructor).
  split; [done|].
  assert (parseFloat "1" = 1%float) as <- by by vm_compute.
  apply (line_height_slider_commits_whole_part "1" "6" initial H).
Defined.

Lemma a_pass_for_each_spaced_change_witness :
  let c0 := {| defaultValue := {["editor.fontSize" := Num 14]};
               globalValue := ∅; workspaceValue := ∅ |} in
  let c (n : float) := setGlobal c0 {["editor.fontSize" := Num n]} in
  let events := [(10, c 15%float, ["editor.fontSize"]);
                 (400, c 16%float, ["editor.fontSize"]);
                 (1000, c 17%float, ["editor.fontSize"])] in
  sent (advance 1300 (changes events (opened c0 0))) =
  [(310, currentSettings (c 15%float)); (700, currentSettings (c 16%float));
   (1300, currentSettings (c 17%float))].
Proof.
  intros c0 c events.
  apply (a_pass_for_each_spaced_change events (opened c0 0) 1300);
    [done | by vm_compute | by vm_compute].
Defined.

Lemma reset_spares_what_the_page_lacks_witness :
  let c0 := {| defaultValue := ∅; globalValue := ∅; workspaceValue := ∅ |} in
  let accepting (key : string) := true in
  let p := onDidReceiveMessage accepting (ResetSettings allSettings)
             (onDidReceiveMessage accepting ApplyRecommended (opened c0 0)) in
  (("editor.fontSize", Num 16) ∈ recommendedSettings /\
   ("accessibility.signals.enabled", Bool true) ∈ recommendedSettings) /\
  globalValue (carry_out accepting (requested p) c0) !! "editor.fontSize" = None /\
  globalValue (carry_out accepting (requested p) c0) !! "accessibility.signals.enabled" =
    Some (Bool true).
Proof.
  intros c0 accepting p.
  assert (("editor.fontSize", Num 16) ∈ recommendedSettings) as Hmanaged by member.
  assert (("accessibility.signals.enabled", Bool true) ∈ recommendedSettings) as Hother
    by member.
  split; [done|]. split.
  - apply (reset_spares_what_the_page_lacks accepting (opened c0 0) c0
             "editor.fontSize" (Num 16) Hmanaged eq_refl).
  - apply (reset_spares_what_the_page_lacks accepting (opened c0 0) c0
             "accessibility.signals.enabled" (Bool true) Hother eq_refl).
Defined.

Lemma accepted_commit_comes_back_witness :
  let K := "editor.suggestFontSize" in
  let c0 := {| defaultValue := {[K := Num 0]}; globalValue := ∅; workspaceValue := ∅ |} in
  let accepting (key : string) := true in
  let st := echoed plain_setter panel accepting K (Num 18) (opened c0 0) c0 initial in
  get (written accepting K (Num 18) (opened c0 0) c0) K = Num 18 /\
  pendingUpdates st !! K = None /\
  pushes_to K (assignments st) =
    [] ++ updateControl plain_setter panel K (Num 18).
Proof.
  intros K c0 accepting st.
  apply (accepted_commit_comes_back plain_setter panel accepting K (Num 18) (opened c0 0) c0
           initial); [member | done | done | by vm_compute | done].
Defined.

Lemma refused_commit_stays_pending_witness :
  let K := "editor.suggestFontSize" in
  let c0 := {| defaultValue := {[K := Num 0]}; globalValue := ∅; workspaceValue := ∅ |} in
  let refusing (key : string) := false in
  let st := echoed plain_setter panel refusing K (Num 18) (opened c0 0) c0 initial in
  get (written refusing K (Num 18) (opened c0 0) c0) K = get c0 K /\
  pendingUpdates st !! K = Some (Num 18) /\
  pushes_to K (assignments st) = [].
Proof.
  intros K c0 refusing st.
  apply (refused_commit_stays_pending plain_setter panel refusing K (Num 18) (opened c0 0) c0
           initial); [member | by left | by vm_compute].
Defined.

Lemma own_writes_are_relevant_witness :
  relevant ["files.autoSave"; "audioCues.taskFailed"] = true.
Proof.
  apply (own_writes_are_relevant ["files.autoSave"; "audioCues.taskFailed"]
           "audioCues.taskFailed"); [member | right; member].
Defined.

Lemma pending_entry_hides_preset_witness :
  let K := "editor.wordWrap" in
  let c0 := {| defaultValue := {[K := Str "off"]}; globalValue := ∅; workspaceValue := ∅ |} in
  let accepting (key : string) := true in
  let st := applySetting K (Str "bounded") initial in
  let c' := carry_out accepting
              (requested (onDidReceiveMessage accepting ApplyRecommended (opened c0 0))) c0 in
  let st' := onUpdateSettings plain_setter panel (currentSettings c') (applyRecommended st) in
  get c' K = Str "on" /\
  pendingUpdates st' !! K = Some (Str "bounded") /\
  pushes_to K (assignments st') = pushes_to K (assignments st).
Proof.
  intros K c0 accepting st.
  apply (pending_entry_hides_preset plain_setter panel accepting (opened c0 0) c0 st K
           (Str "bounded") (Str "on"));
    [member | member | done | done | by vm_compute | by vm_compute].
Defined.

Lemma unanswered_prompt_returns_witness :
  let dismissed := {| result := None; openExternal_returns := true;
                      entries := None; revealFileInOS_returns := true |} in
  let failed := {| result := Some "Install Font Now"; openExternal_returns := true;
                   entries := Some [("OFL.txt", File); ("Mono-Regular.ttf", File)];
                   revealFileInOS_returns := false |} in
  (activations [dismissed; failed; dismissed] false).1 = false /\
  length (List.filter is_prompt (activations [dismissed; failed; dismissed] false).2) = 3%nat.
Proof.
  intros dismissed failed.
  assert ((activations [dismissed; failed; dismissed] false).1 = false) as H by done.
  split; [done|]. apply (unanswered_prompt_returns [dismissed; failed; dismissed] H).
Defined.
